(** * The channel broadcaster of the dashboard backend

    A shallow embedding of [ConnectionManager]
    (backend/app/core/websocket_manager.py) and the properties of its
    connect / disconnect / broadcast life cycle.

    The registry [active_connections : Dict[str, List[WebSocket]]] is a
    finite map from channel names to Python lists.  The methods are written
    in a small state-and-exception monad, so that "raises", "is caught" and
    "leaves the registry as it was" are statements about the code and not
    about the shape of the model.  The transport ([websocket.accept],
    [websocket.send_text]) and the serialiser ([json.dumps]) are external:
    they are parameters of the development, and every theorem holds for
    every transport.  Each method runs to completion before the next one
    starts: interleaving of coroutines at an [await] is outside the model. *)

From stdpp Require Import base gmap list strings.

#[local] Set Warnings "-clear-no-such-hyp".

(** ** Values *)

(** A WebSocket object compares by identity ([__eq__] is [object.__eq__]);
    the handle is its identity. *)
Definition WebSocket := nat.

(** The exceptions that occur, all of them subclasses of [Exception], so
    that [except Exception] catches each of them. *)
Inductive exception :=
  | ValueError
  | TypeError
  | KeyError (key : string)
  | RuntimeError (detail : string).

Inductive result (A : Type) :=
  | Return (a : A)
  | Raise (e : exception).
Arguments Return {A} a.
Arguments Raise {A} e.

(** What the manager does that an observer outside can see: the calls into
    the transport with their outcome, the text the serialiser produced, and
    the records written to the logger. *)
Inductive event :=
  | Accept (ws : WebSocket) (ok : bool)
  | SendText (ws : WebSocket) (message : string) (ok : bool)
  | JsonDumps (message : string)
  | LogConnected (channel : string) (total : nat)
  | LogDisconnected (channel : string) (total : nat)
  | LogBroadcastError (channel : string) (e : exception)
  | LogPersonalError (e : exception).

#[global] Instance exception_eq_dec : EqDecision exception.
Proof. solve_decision. Defined.

#[global] Instance event_eq_dec : EqDecision event.
Proof. solve_decision. Defined.

(** [list.remove(x)]: drops the first element equal to [x]; [None] stands
    for the [ValueError] raised when there is none. *)
Fixpoint list_remove (x : WebSocket) (l : list WebSocket) : option (list WebSocket) :=
  match l with
  | [] => None
  | y :: l' => if decide (y = x) then Some l' else (y ::.) <$> list_remove x l'
  end.

(** [discard x l]: what [try: l.remove(x) except ValueError: pass] leaves. *)
Definition discard (x : WebSocket) (l : list WebSocket) : list WebSocket :=
  default l (list_remove x l).

(** ** Reading a trace *)

(** The handles [send_text] was called on, in the order of the calls. *)
Definition sent_to (evs : list event) : list WebSocket :=
  omap (λ ev, match ev with SendText ws _ _ => Some ws | _ => None end) evs.

(** The sends that went through: who received which text. *)
Definition delivered (evs : list event) : list (WebSocket * string) :=
  omap (λ ev, match ev with SendText ws m true => Some (ws, m) | _ => None end) evs.

(** The handles on which a send raised. *)
Definition failed_sends (evs : list event) : list WebSocket :=
  omap (λ ev, match ev with SendText ws _ false => Some ws | _ => None end) evs.

(** The texts produced by the serialiser, one per call of it. *)
Definition serialisations (evs : list event) : list string :=
  omap (λ ev, match ev with JsonDumps m => Some m | _ => None end) evs.

(** The number of "Client connected to <channel>" records. *)
Definition connected_records (channel : string) (evs : list event) : nat :=
  length (omap (λ ev, match ev with
                      | LogConnected c _ => if decide (c = channel) then Some () else None
                      | _ => None
                      end) evs).

(** The number of "Client disconnected from <channel>" records. *)
Definition disconnected_records (channel : string) (evs : list event) : nat :=
  length (omap (λ ev, match ev with
                      | LogDisconnected c _ => if decide (c = channel) then Some () else None
                      | _ => None
                      end) evs).

(** ** A transport for the examples *)

(** Its state names the handles whose handshake is refused and the handles
    on which a send raises. *)
Definition broken_accept (ws : WebSocket) (t : list WebSocket * list WebSocket)
  : option exception * (list WebSocket * list WebSocket) :=
  (if bool_decide (ws ∈ t.1) then Some (RuntimeError "handshake refused") else None, t).

Definition broken_send_text (ws : WebSocket) (message : string)
    (t : list WebSocket * list WebSocket)
  : option exception * (list WebSocket * list WebSocket) :=
  (if bool_decide (ws ∈ t.2) then Some (RuntimeError "connection closed") else None, t).

(** Payloads for the examples: a text, which serialises to itself, and a
    structure that refers to itself, on which [json.dumps] raises
    [ValueError]. *)
Inductive payload :=
  | Text (text : string)
  | Cyclic.

Definition text_dumps (data : payload) : result string :=
  match data with
  | Text text => Return text
  | Cyclic => Raise ValueError
  end.

(** Closes a decidable goal on concrete data by evaluation. *)
Ltac by_compute := apply (bool_decide_unpack _); vm_compute; exact I.

Section Manager.

(** ** The environment *)

(** [T] is the state of the transport; [ws_accept] and [ws_send_text] are
    [await websocket.accept()] and [await websocket.send_text(message)],
    returning the exception they raise, if any.  [Any] is the type of the
    values the producers hand over, and [json_dumps] is
    [json.dumps(data, default=str)] on them: the text, or the exception it
    raises ([TypeError] on a dictionary key that is not text or a number,
    [ValueError] on a structure that refers to itself). *)
Variable T : Type.
Variable ws_accept : WebSocket → T → option exception * T.
Variable ws_send_text : WebSocket → string → T → option exception * T.
Variable Any : Type.
Variable json_dumps : Any → result string.

Record State := mkState {
  active_connections : gmap string (list WebSocket);
  net : T;
  trace : list event   (* oldest event first *)
}.

(** ** The monad of method bodies *)

Definition M (A : Type) : Type := State → result A * State.

#[local] Instance M_ret : MRet M := λ A a s, (Return a, s).

#[local] Instance M_bind : MBind M := λ A B f m s,
  match m s with
  | (Return a, s') => f a s'
  | (Raise e, s') => (Raise e, s')
  end.

Definition raise {A : Type} (e : exception) : M A := λ s, (Raise e, s).

(** [try: body except <handler>]: the handler says which exceptions it
    catches; what the body did to the state before raising stays done. *)
Definition try_except {A : Type} (body : M A) (handler : exception → option (M A)) : M A :=
  λ s, match body s with
       | (Return a, s') => (Return a, s')
       | (Raise e, s') =>
           match handler e with
           | Some h => h s'
           | None => (Raise e, s')
           end
       end.

Definition emit (ev : event) : M unit :=
  λ s, (Return tt, mkState (active_connections s) (net s) (trace s ++ [ev])).

(** ** Dictionary and list primitives *)

(** [channel in self.active_connections] *)
Definition contains (channel : string) : M bool :=
  λ s, (Return (bool_decide (is_Some (active_connections s !! channel))), s).

(** [self.active_connections[channel]] *)
Definition getitem (channel : string) : M (list WebSocket) :=
  λ s, match active_connections s !! channel with
       | Some l => (Return l, s)
       | None => (Raise (KeyError channel), s)
       end.

(** [self.active_connections[channel] = l], also the write-back of a list
    mutated in place. *)
Definition setitem (channel : string) (l : list WebSocket) : M unit :=
  λ s, (Return tt, mkState (<[channel := l]> (active_connections s)) (net s) (trace s)).

(** [self.active_connections.get(channel, [])] *)
Definition dict_get (channel : string) (dflt : list WebSocket) : M (list WebSocket) :=
  λ s, (Return (default dflt (active_connections s !! channel)), s).

(** [self.active_connections[channel].append(websocket)] *)
Definition append (channel : string) (websocket : WebSocket) : M unit :=
  l ← getitem channel; setitem channel (l ++ [websocket]).

(** [self.active_connections[channel].remove(websocket)] *)
Definition remove (channel : string) (websocket : WebSocket) : M unit :=
  l ← getitem channel;
  match list_remove websocket l with
  | Some l' => setitem channel l'
  | None => raise ValueError
  end.

(** ** Transport and serialiser calls *)

Definition accept (websocket : WebSocket) : M unit :=
  λ s, let '(r, t) := ws_accept websocket (net s) in
       match r with
       | None => (Return tt, mkState (active_connections s) t (trace s ++ [Accept websocket true]))
       | Some e => (Raise e, mkState (active_connections s) t (trace s ++ [Accept websocket false]))
       end.

Definition send_text (websocket : WebSocket) (message : string) : M unit :=
  λ s, let '(r, t) := ws_send_text websocket message (net s) in
       match r with
       | None => (Return tt, mkState (active_connections s) t (trace s ++ [SendText websocket message true]))
       | Some e => (Raise e, mkState (active_connections s) t (trace s ++ [SendText websocket message false]))
       end.

Definition dumps (data : Any) : M string :=
  λ s, match json_dumps data with
       | Return message =>
           (Return message,
            mkState (active_connections s) (net s) (trace s ++ [JsonDumps message]))
       | Raise e => (Raise e, s)
       end.

(** ** The methods of [ConnectionManager] *)

(** [__init__]: the four channels of the dashboard, each with no client. *)
Definition init (t : T) : State :=
  mkState (<["alerts" := []]> (<["metrics" := []]> (<["network_traffic" := []]>
             (<["logs" := []]> ∅)))) t [].

Definition connect (websocket : WebSocket) (channel : string) : M unit :=
  accept websocket;;
  known ← contains channel;
  (if (known : bool) then mret tt else setitem channel []);;
  append channel websocket;;
  connections ← getitem channel;
  emit (LogConnected channel (length connections)).

Definition disconnect (websocket : WebSocket) (channel : string) : M unit :=
  known ← contains channel;
  if (known : bool) then
    try_except
      (remove channel websocket;;
       connections ← getitem channel;
       emit (LogDisconnected channel (length connections)))
      (λ e, match e with ValueError => Some (mret tt) | _ => None end)
  else mret tt.

Definition send_personal_message (message : string) (websocket : WebSocket) : M unit :=
  try_except (send_text websocket message)
             (λ e, Some (emit (LogPersonalError e))).

(** The delivery loop of [broadcast].  [disconnected_clients] is the local
    list the loop appends to; the loop body does not touch the registry, so
    the list being traversed is the one read when the loop starts. *)
Fixpoint sweep (channel message : string) (connections : list WebSocket)
    (disconnected_clients : list WebSocket) : M (list WebSocket) :=
  match connections with
  | [] => mret disconnected_clients
  | connection :: rest =>
      disconnected_clients' ←
        try_except
          (send_text connection message;; mret disconnected_clients)
          (λ e, Some (emit (LogBroadcastError channel e);;
                      mret (disconnected_clients ++ [connection])));
      sweep channel message rest disconnected_clients'
  end.

(** [for client in disconnected_clients: self.disconnect(client, channel)] *)
Fixpoint cleanup (channel : string) (disconnected_clients : list WebSocket) : M unit :=
  match disconnected_clients with
  | [] => mret tt
  | client :: rest => disconnect client channel;; cleanup channel rest
  end.

Definition broadcast (channel : string) (data : Any) : M unit :=
  known ← contains channel;
  if negb (known : bool) then mret tt else
    message ← dumps data;
    connections ← getitem channel;
    disconnected_clients ← sweep channel message connections [];
    cleanup channel disconnected_clients.

Definition get_connection_count (channel : string) : M nat :=
  connections ← dict_get channel []; mret (length connections).

Definition get_all_connection_counts : M (gmap string nat) :=
  λ s, (Return (length <$> active_connections s), s).

(** ** Sequences of calls *)

(** The connections registered to a channel: none when there is no entry. *)
Definition members (s : State) (channel : string) : list WebSocket :=
  default [] (active_connections s !! channel).

Inductive call :=
  | Connect (websocket : WebSocket) (channel : string)
  | Disconnect (websocket : WebSocket) (channel : string)
  | Broadcast (channel : string) (data : Any).

Definition exec (c : call) : M unit :=
  match c with
  | Connect websocket channel => connect websocket channel
  | Disconnect websocket channel => disconnect websocket channel
  | Broadcast channel data => broadcast channel data
  end.

(** The callers go on after an exception of [connect]; the state is the
    one the call left. *)
Definition run (cs : list call) (s : State) : State :=
  foldl (λ s c, (exec c s).2) s cs.

(** Every handle passed to [connect] has not been passed to it before
    ([seen] are the handles of the earlier calls). *)
Fixpoint fresh_connects (seen : list WebSocket) (cs : list call) : Prop :=
  match cs with
  | [] => True
  | Connect websocket _ :: cs' =>
      (websocket ∉ seen) ∧ fresh_connects (websocket :: seen) cs'
  | _ :: cs' => fresh_connects seen cs'
  end.

(** The events a step added to the trace. *)
Definition new_events (s s' : State) : list event :=
  drop (length (trace s)) (trace s').

(** The handles passed to [connect] so far, after the calls [cs]. *)
Definition seen_after (cs : list call) (seen : list WebSocket) : list WebSocket :=
  foldl (λ seen c, match c with Connect websocket _ => websocket :: seen | _ => seen end)
        seen cs.

(** The ledger of the logger: on every channel the connections registered
    now are those of the "connected" records that no "disconnected" record
    has taken away. *)
Definition balanced (s : State) : Prop :=
  ∀ channel,
    length (members s channel) + disconnected_records channel (trace s) =
    connected_records channel (trace s).

(** [websocket] has been removed from [channel] in the course of the calls
    [cs] started in [s0]: it was a member before one of the calls and was
    not a member after it. *)
Definition removed_from (cs : list call) (s0 : State) (channel : string)
    (websocket : WebSocket) : Prop :=
  ∃ pre c post,
    cs = pre ++ c :: post
    ∧ websocket ∈ members (run pre s0) channel
    ∧ websocket ∉ members (run (pre ++ [c]) s0) channel.

(** What the delivery loop of a broadcast of [message] on [channel] may
    leave in the trace: a send of that very text, with the outcome the
    transport gave in some state, and the error record of a failed send. *)
Definition sweep_event (channel message : string) (ev : event) : Prop :=
  match ev with
  | SendText ws m ok =>
      m = message ∧ ∃ t, ok = bool_decide ((ws_send_text ws m t).1 = None)
  | LogBroadcastError c _ => c = channel
  | _ => False
  end.

(** The records the removal of evicted clients leaves in the trace. *)
Definition cleanup_event (channel : string) (ev : event) : Prop :=
  match ev with
  | LogDisconnected c _ => c = channel
  | _ => False
  end.

(** ** Facts on [list.remove] *)

Lemma list_remove_None x l : list_remove x l = None ↔ x ∉ l.
Proof.
  induction l as [|y l IH]; simpl.
  - split; [intros _; apply not_elem_of_nil | done].
  - case_decide as Hxy.
    + subst. split; [done | intros H; exfalso; apply H; left].
    + rewrite fmap_None, IH, not_elem_of_cons. split; [by intros ?; split | by intros [_ ?]].
Qed.

Lemma list_remove_Some_perm x l l' : list_remove x l = Some l' → l ≡ₚ x :: l'.
Proof.
  revert l'. induction l as [|y l IH]; simpl; intros l' H; [done|].
  case_decide as Hxy.
  - by simplify_eq.
  - destruct (list_remove x l) as [k|]; simplify_eq/=.
    rewrite (IH k eq_refl). apply Permutation_swap.
Qed.

Lemma list_remove_Some_sublist x l l' : list_remove x l = Some l' → l' `sublist_of` l.
Proof.
  revert l'. induction l as [|y l IH]; simpl; intros l' H; [done|].
  case_decide as Hxy.
  - simplify_eq. by apply sublist_cons.
  - destruct (list_remove x l) as [k|]; simplify_eq/=.
    apply sublist_skip. by apply IH.
Qed.

Lemma list_remove_Some_length x l l' : list_remove x l = Some l' → length l = S (length l').
Proof. intros H. by rewrite (list_remove_Some_perm _ _ _ H). Qed.

Lemma discard_sublist x l : discard x l `sublist_of` l.
Proof.
  unfold discard. destruct (list_remove x l) as [l'|] eqn:H; simpl; [|done].
  by eapply list_remove_Some_sublist.
Qed.

Lemma discard_NoDup x l : NoDup l → NoDup (discard x l).
Proof. intros H. eapply sublist_NoDup; [done | apply discard_sublist]. Qed.

Lemma elem_of_discard_NoDup x y l : NoDup l → y ∈ discard x l ↔ y ∈ l ∧ y ≠ x.
Proof.
  intros Hnd. unfold discard.
  destruct (list_remove x l) as [l'|] eqn:H; simpl.
  - pose proof (list_remove_Some_perm _ _ _ H) as Hp.
    rewrite Hp in Hnd. apply NoDup_cons in Hnd as [Hx _].
    rewrite Hp, elem_of_cons. split.
    + intros Hy. split; [by right | by intros ->].
    + by intros [[?|?] ?].
  - apply list_remove_None in H. split; [|by intros [? _]].
    intros Hy. split; [done | by intros ->].
Qed.

Lemma elem_of_discard_all_NoDup dc y l :
  NoDup l → y ∈ foldl (λ l x, discard x l) l dc ↔ y ∈ l ∧ y ∉ dc.
Proof.
  revert l. induction dc as [|x dc IH]; intros l Hnd; simpl.
  - split; [intros H; split; [done | apply not_elem_of_nil] | by intros [? _]].
  - rewrite IH by by apply discard_NoDup.
    rewrite elem_of_discard_NoDup, not_elem_of_cons by done.
    split; [by intros [[? ?] ?] | by intros [? [? ?]]].
Qed.

Lemma discard_all_sublist dc l : foldl (λ l x, discard x l) l dc `sublist_of` l.
Proof.
  revert l. induction dc as [|x dc IH]; intros l; simpl; [done|].
  etrans; [apply IH | apply discard_sublist].
Qed.

(** ** Facts on traces *)

Lemma sent_to_app evs1 evs2 : sent_to (evs1 ++ evs2) = sent_to evs1 ++ sent_to evs2.
Proof. apply omap_app. Qed.

Lemma delivered_app evs1 evs2 : delivered (evs1 ++ evs2) = delivered evs1 ++ delivered evs2.
Proof. apply omap_app. Qed.

Lemma failed_sends_app evs1 evs2 :
  failed_sends (evs1 ++ evs2) = failed_sends evs1 ++ failed_sends evs2.
Proof. apply omap_app. Qed.

Lemma serialisations_app evs1 evs2 :
  serialisations (evs1 ++ evs2) = serialisations evs1 ++ serialisations evs2.
Proof. apply omap_app. Qed.

Lemma connected_records_app channel evs1 evs2 :
  connected_records channel (evs1 ++ evs2) =
  connected_records channel evs1 + connected_records channel evs2.
Proof. unfold connected_records. by rewrite omap_app, length_app. Qed.

Lemma disconnected_records_app channel evs1 evs2 :
  disconnected_records channel (evs1 ++ evs2) =
  disconnected_records channel evs1 + disconnected_records channel evs2.
Proof. unfold disconnected_records. by rewrite omap_app, length_app. Qed.

(** Every send either went through or failed. *)
Lemma sent_to_outcome ws evs :
  ws ∈ sent_to evs → ws ∈ failed_sends evs ∨ ∃ m, (ws, m) ∈ delivered evs.
Proof.
  unfold sent_to, failed_sends, delivered. rewrite list_elem_of_omap.
  intros (ev & Hev & H). destruct ev as [| ws' m ok | | | | |]; simplify_eq.
  destruct ok.
  - right. exists m. apply list_elem_of_omap. by exists (SendText ws m true).
  - left. apply list_elem_of_omap. by exists (SendText ws m false).
Qed.

Lemma cleanup_events_silent channel cevs :
  Forall (cleanup_event channel) cevs →
  sent_to cevs = [] ∧ delivered cevs = [] ∧ failed_sends cevs = [] ∧ serialisations cevs = [].
Proof.
  induction 1 as [|ev cevs Hev _ IH]; [done|].
  destruct ev; done.
Qed.

Lemma sweep_events_no_dumps channel message evs :
  Forall (sweep_event channel message) evs → serialisations evs = [].
Proof.
  induction 1 as [|ev evs Hev _ IH]; [done|].
  destruct ev; try done; simpl; apply IH.
Qed.

Lemma sweep_events_failed channel message evs ws :
  Forall (sweep_event channel message) evs → ws ∈ failed_sends evs →
  ∃ t, (ws_send_text ws message t).1 ≠ None.
Proof.
  intros Hall Hin. apply list_elem_of_omap in Hin as (ev & Hev & Hf).
  rewrite Forall_forall in Hall. specialize (Hall ev Hev).
  destruct ev as [| ws' m [] | | | | |]; simplify_eq.
  destruct Hall as [-> [t Ht]]. exists t. symmetry in Ht.
  by apply bool_decide_eq_false in Ht.
Qed.

Lemma sweep_events_delivered channel message evs ws m :
  Forall (sweep_event channel message) evs → (ws, m) ∈ delivered evs →
  m = message ∧ ∃ t, (ws_send_text ws message t).1 = None.
Proof.
  intros Hall Hin. apply list_elem_of_omap in Hin as (ev & Hev & Hf).
  rewrite Forall_forall in Hall. specialize (Hall ev Hev).
  destruct ev as [| ws' m' [] | | | | |]; simplify_eq.
  destruct Hall as [-> [t Ht]]. split; [done|]. exists t. symmetry in Ht.
  by apply bool_decide_eq_true in Ht.
Qed.

(** When no send failed, every call of [send_text] delivered its text. *)
Lemma sweep_events_all_delivered channel message evs :
  Forall (sweep_event channel message) evs → failed_sends evs = [] →
  delivered evs = (λ ws, (ws, message)) <$> sent_to evs.
Proof.
  induction 1 as [|ev evs Hev _ IH]; [done|].
  destruct ev as [| ws m [] | | | | |]; try done; simpl.
  destruct Hev as [-> _]. intros Hf. by rewrite IH.
Qed.

Lemma failed_sends_sent ws evs : ws ∈ failed_sends evs → ws ∈ sent_to evs.
Proof.
  unfold failed_sends, sent_to. rewrite !list_elem_of_omap.
  intros (ev & Hev & H). exists ev. split; [done|].
  by destruct ev as [| ws' m [] | | | | |].
Qed.

Lemma sent_to_dumps m evs : sent_to (JsonDumps m :: evs) = sent_to evs.
Proof. done. Qed.

Lemma delivered_dumps m evs : delivered (JsonDumps m :: evs) = delivered evs.
Proof. done. Qed.

Lemma failed_sends_dumps m evs : failed_sends (JsonDumps m :: evs) = failed_sends evs.
Proof. done. Qed.

Lemma serialisations_dumps m evs :
  serialisations (JsonDumps m :: evs) = m :: serialisations evs.
Proof. done. Qed.

Lemma failed_sends_sublist evs : failed_sends evs `sublist_of` sent_to evs.
Proof.
  induction evs as [|ev evs IH]; [done|].
  destruct ev as [| ws m [] | | | | |]; simpl; try done.
  - by apply sublist_cons.
  - by apply sublist_skip.
Qed.

Lemma new_events_app s s' evs : trace s' = trace s ++ evs → new_events s s' = evs.
Proof. intros H. unfold new_events. rewrite H. apply drop_app_length. Qed.

(** ** What each method computes *)

Ltac run_body :=
  repeat (progress (unfold mbind, M_bind, mret, M_ret, try_except, raise, emit,
                      contains, getitem, setitem, dict_get, append, remove; simpl)).

Lemma disconnect_unfold websocket channel s :
  disconnect websocket channel s =
  (Return tt,
   match active_connections s !! channel with
   | Some l =>
       match list_remove websocket l with
       | Some l' =>
           mkState (<[channel := l']> (active_connections s)) (net s)
                   (trace s ++ [LogDisconnected channel (length l')])
       | None => s
       end
   | None => s
   end).
Proof.
  unfold disconnect. run_body.
  destruct (active_connections s !! channel) as [l|] eqn:Hl; simpl; [|done].
  rewrite Hl. destruct (list_remove websocket l) as [l'|]; simpl; [|done].
  by rewrite lookup_insert_eq.
Qed.

Lemma connect_unfold websocket channel s :
  connect websocket channel s =
  match ws_accept websocket (net s) with
  | (None, t) =>
      (Return tt,
       mkState (<[channel := members s channel ++ [websocket]]> (active_connections s)) t
               (trace s ++ [Accept websocket true;
                            LogConnected channel (S (length (members s channel)))]))
  | (Some e, t) =>
      (Raise e, mkState (active_connections s) t (trace s ++ [Accept websocket false]))
  end.
Proof.
  unfold connect, accept, members. run_body.
  destruct (ws_accept websocket (net s)) as [[e|] t]; simpl; [done|].
  destruct (active_connections s !! channel) as [l|] eqn:Hl; simpl.
  - rewrite Hl. simpl. rewrite lookup_insert_eq. simpl.
    rewrite length_app, Nat.add_1_r. by rewrite <- (assoc_L (++)).
  - rewrite !lookup_insert_eq. simpl. rewrite insert_insert_eq, lookup_insert_eq.
    simpl. by rewrite <- (assoc_L (++)).
Qed.

Lemma sweep_unfold channel message connections disconnected_clients s :
  ∃ evs t,
    sweep channel message connections disconnected_clients s =
      (Return (disconnected_clients ++ failed_sends evs),
       mkState (active_connections s) t (trace s ++ evs))
    ∧ sent_to evs = connections
    ∧ Forall (sweep_event channel message) evs.
Proof.
  revert disconnected_clients s.
  induction connections as [|c rest IH]; intros dc s; simpl.
  - exists [], (net s). rewrite !app_nil_r. by destruct s.
  - unfold send_text. run_body.
    destruct (ws_send_text c message (net s)) as [[e|] t] eqn:Hsend; simpl.
    + edestruct IH as (evs & t' & -> & Hsent & Hall). simpl.
      exists (SendText c message false :: LogBroadcastError channel e :: evs), t'.
      split_and!.
      * simpl. by rewrite <- !(assoc_L (++)).
      * simpl. by f_equal.
      * apply Forall_cons; split; [|by apply Forall_cons].
        split; [done|]. exists (net s). by rewrite Hsend.
    + edestruct IH as (evs & t' & -> & Hsent & Hall). simpl.
      exists (SendText c message true :: evs), t'.
      split_and!.
      * simpl. by rewrite <- !(assoc_L (++)).
      * simpl. by f_equal.
      * apply Forall_cons; split; [|done].
        split; [done|]. exists (net s). by rewrite Hsend.
Qed.

Lemma cleanup_unfold channel disconnected_clients s :
  cleanup channel disconnected_clients s =
  (Return tt, foldl (λ s client, (disconnect client channel s).2) s disconnected_clients).
Proof.
  revert s. induction disconnected_clients as [|c rest IH]; intros s; simpl; [done|].
  unfold mbind, M_bind. rewrite disconnect_unfold. simpl. apply IH.
Qed.

Lemma broadcast_unknown channel data s :
  active_connections s !! channel = None → broadcast channel data s = (Return tt, s).
Proof. intros H. unfold broadcast. run_body. by rewrite H. Qed.

(** On a registered channel a payload the serialiser rejects makes the
    broadcast raise before anything is sent; the state is as it was. *)
Lemma broadcast_rejected channel data s l e :
  active_connections s !! channel = Some l →
  json_dumps data = Raise e →
  broadcast channel data s = (Raise e, s).
Proof. intros H Hd. unfold broadcast, dumps. run_body. by rewrite H, Hd. Qed.

Lemma broadcast_known channel data s l message :
  active_connections s !! channel = Some l →
  json_dumps data = Return message →
  ∃ evs t,
    broadcast channel data s =
      (Return tt,
       foldl (λ s client, (disconnect client channel s).2)
             (mkState (active_connections s) t
                      (trace s ++ JsonDumps message :: evs))
             (failed_sends evs))
    ∧ sent_to evs = l
    ∧ Forall (sweep_event channel message) evs.
Proof.
  intros H Hd. unfold broadcast, dumps. run_body. rewrite H, Hd. simpl.
  destruct (sweep_unfold channel message l []
              (mkState (active_connections s) (net s)
                       (trace s ++ [JsonDumps message])))
    as (evs & t & Hsweep & Hsent & Hall).
  exists evs, t. split_and!; [|done|done].
  rewrite H. simpl in Hsweep. simpl. rewrite Hsweep. simpl.
  rewrite cleanup_unfold. by rewrite <- (assoc_L (++)).
Qed.

(** ** The effect of [disconnect] and of the removal of evicted clients *)

Lemma disconnect_returns websocket channel s : (disconnect websocket channel s).1 = Return tt.
Proof. by rewrite disconnect_unfold. Qed.

Lemma disconnect_lookup websocket channel s :
  active_connections (disconnect websocket channel s).2 !! channel =
  discard websocket <$> active_connections s !! channel.
Proof.
  rewrite disconnect_unfold. simpl. unfold discard.
  destruct (active_connections s !! channel) as [l|] eqn:Hl; [|by rewrite Hl].
  simpl. destruct (list_remove websocket l) as [l'|]; simpl;
    [by rewrite lookup_insert_eq | by rewrite Hl].
Qed.

Lemma disconnect_lookup_ne websocket channel channel' s :
  channel ≠ channel' →
  active_connections (disconnect websocket channel s).2 !! channel' =
  active_connections s !! channel'.
Proof.
  intros Hne. rewrite disconnect_unfold. simpl.
  destruct (active_connections s !! channel) as [l|]; [|done].
  destruct (list_remove websocket l) as [l'|]; simpl; [by rewrite lookup_insert_ne | done].
Qed.

Lemma disconnect_trace websocket channel s :
  ∃ evs, trace (disconnect websocket channel s).2 = trace s ++ evs
         ∧ Forall (cleanup_event channel) evs.
Proof.
  rewrite disconnect_unfold. simpl.
  destruct (active_connections s !! channel) as [l|];
    [|exists []; by rewrite app_nil_r].
  destruct (list_remove websocket l) as [l'|]; simpl;
    [|exists []; by rewrite app_nil_r].
  eexists. split; [done|]. by apply Forall_singleton.
Qed.

Lemma evict_lookup channel dc s :
  active_connections (foldl (λ s client, (disconnect client channel s).2) s dc) !! channel =
  (λ l, foldl (λ l x, discard x l) l dc) <$> active_connections s !! channel.
Proof.
  revert s. induction dc as [|c dc IH]; intros s; simpl.
  - by destruct (active_connections s !! channel).
  - rewrite IH, disconnect_lookup. by destruct (active_connections s !! channel).
Qed.

Lemma evict_lookup_ne channel channel' dc s :
  channel ≠ channel' →
  active_connections (foldl (λ s client, (disconnect client channel s).2) s dc) !! channel' =
  active_connections s !! channel'.
Proof.
  intros Hne. revert s. induction dc as [|c dc IH]; intros s; simpl; [done|].
  by rewrite IH, disconnect_lookup_ne.
Qed.

Lemma evict_trace channel dc s :
  ∃ evs, trace (foldl (λ s client, (disconnect client channel s).2) s dc) = trace s ++ evs
         ∧ Forall (cleanup_event channel) evs.
Proof.
  revert s. induction dc as [|c dc IH]; intros s; simpl.
  - exists []. by rewrite app_nil_r.
  - destruct (IH (disconnect c channel s).2) as (evs2 & -> & H2).
    destruct (disconnect_trace c channel s) as (evs1 & -> & H1).
    exists (evs1 ++ evs2). split; [by rewrite (assoc_L (++)) | by apply Forall_app].
Qed.

(** ** The effect of [broadcast] *)

Lemma broadcast_spec channel data s l message :
  active_connections s !! channel = Some l →
  json_dumps data = Return message →
  ∃ evs cevs s',
    broadcast channel data s = (Return tt, s')
    ∧ trace s' = trace s ++ JsonDumps message :: evs ++ cevs
    ∧ sent_to evs = l
    ∧ Forall (sweep_event channel message) evs
    ∧ Forall (cleanup_event channel) cevs
    ∧ active_connections s' !! channel = Some (foldl (λ l x, discard x l) l (failed_sends evs))
    ∧ (∀ channel', channel ≠ channel' →
         active_connections s' !! channel' = active_connections s !! channel').
Proof.
  intros H Hd.
  destruct (broadcast_known channel data s l message H Hd) as (evs & t & Hb & Hsent & Hall).
  set (s1 := mkState (active_connections s) t
                     (trace s ++ JsonDumps message :: evs)) in Hb |- *.
  destruct (evict_trace channel (failed_sends evs) s1) as (cevs & Htr & Hc).
  exists evs, cevs, (foldl (λ s client, (disconnect client channel s).2) s1 (failed_sends evs)).
  split_and!; try done.
  - rewrite Htr. simpl. by rewrite <- (assoc_L (++)).
  - rewrite evict_lookup. simpl. by rewrite H.
  - intros channel' Hne. by rewrite evict_lookup_ne.
Qed.

(** A broadcast that does not get to the delivery loop leaves the state as
    it was: the channel is not in the registry, or the serialiser raises. *)
Lemma broadcast_skipped channel data s :
  active_connections s !! channel = None ∨ (∃ e, json_dumps data = Raise e) →
  (broadcast channel data s).2 = s.
Proof.
  intros [H | [e He]].
  - by rewrite broadcast_unknown.
  - destruct (active_connections s !! channel) as [l|] eqn:H.
    + by rewrite (broadcast_rejected _ _ _ l e).
    + by rewrite broadcast_unknown.
Qed.

Lemma broadcast_lookup_ne channel channel' data s :
  channel ≠ channel' →
  active_connections (broadcast channel data s).2 !! channel' =
  active_connections s !! channel'.
Proof.
  intros Hne. destruct (active_connections s !! channel) as [l|] eqn:H.
  - destruct (json_dumps data) as [message|e] eqn:Hd.
    + destruct (broadcast_spec channel data s l message H Hd)
        as (? & ? & ? & -> & _ & _ & _ & _ & _ & Hf).
      by apply Hf.
    + by rewrite broadcast_skipped by eauto.
  - by rewrite broadcast_skipped by eauto.
Qed.

Lemma get_connection_count_unfold channel s :
  get_connection_count channel s = (Return (length (members s channel)), s).
Proof. done. Qed.

(** ** Membership after each call *)

Lemma members_lookup s channel l :
  active_connections s !! channel = Some l → members s channel = l.
Proof. intros H. unfold members. by rewrite H. Qed.

Lemma members_init t channel : members (init t) channel = [].
Proof.
  unfold members, init. simpl.
  repeat (rewrite lookup_insert; case_decide; [done|]).
  by rewrite lookup_empty.
Qed.

Lemma connect_lookup_ne websocket channel channel' s :
  channel ≠ channel' →
  active_connections (connect websocket channel s).2 !! channel' =
  active_connections s !! channel'.
Proof.
  intros Hne. rewrite connect_unfold.
  destruct (ws_accept websocket (net s)) as [[e|] t]; simpl; [done|].
  by rewrite lookup_insert_ne.
Qed.

Lemma connect_members_ne websocket channel channel' s :
  channel ≠ channel' →
  members (connect websocket channel s).2 channel' = members s channel'.
Proof. intros Hne. unfold members. by rewrite connect_lookup_ne. Qed.

Lemma connect_members websocket channel s :
  members (connect websocket channel s).2 channel =
  match (ws_accept websocket (net s)).1 with
  | None => members s channel ++ [websocket]
  | Some _ => members s channel
  end.
Proof.
  rewrite connect_unfold.
  destruct (ws_accept websocket (net s)) as [[e|] t]; simpl; [done|].
  unfold members at 1. simpl. by rewrite lookup_insert_eq.
Qed.

Lemma disconnect_members websocket channel s :
  members (disconnect websocket channel s).2 channel = discard websocket (members s channel).
Proof.
  unfold members. rewrite disconnect_lookup.
  by destruct (active_connections s !! channel).
Qed.

Lemma disconnect_members_ne websocket channel channel' s :
  channel ≠ channel' →
  members (disconnect websocket channel s).2 channel' = members s channel'.
Proof. intros Hne. unfold members. by rewrite disconnect_lookup_ne. Qed.

Lemma broadcast_members_ne channel channel' data s :
  channel ≠ channel' →
  members (broadcast channel data s).2 channel' = members s channel'.
Proof. intros Hne. unfold members. by rewrite broadcast_lookup_ne. Qed.

(** The members after a broadcast are the members before it without the
    handles on which a send raised. *)
Lemma broadcast_members channel data s :
  let s' := (broadcast channel data s).2 in
  members s' channel =
  foldl (λ l x, discard x l) (members s channel) (failed_sends (new_events s s'))
  ∧ failed_sends (new_events s s') `sublist_of` members s channel
  ∧ (sent_to (new_events s s') = members s channel ∨ new_events s s' = []).
Proof.
  intros s'. subst s'.
  assert (Hskip : (broadcast channel data s).2 = s →
            members (broadcast channel data s).2 channel =
            foldl (λ l x, discard x l) (members s channel)
                  (failed_sends (new_events s (broadcast channel data s).2))
            ∧ failed_sends (new_events s (broadcast channel data s).2)
                `sublist_of` members s channel
            ∧ (sent_to (new_events s (broadcast channel data s).2) = members s channel
               ∨ new_events s (broadcast channel data s).2 = [])).
  { intros ->. unfold new_events. rewrite drop_all.
    split_and!; [done | apply sublist_nil_l | by right]. }
  destruct (active_connections s !! channel) as [l|] eqn:Hl;
    [destruct (json_dumps data) as [message|e] eqn:Hd|].
  - destruct (broadcast_spec channel data s l message Hl Hd)
      as (evs & cevs & s' & Hb & Htr & Hsent & Hall & Hc & Hch & _).
    rewrite Hb. simpl. rewrite (new_events_app _ _ _ Htr).
    destruct (cleanup_events_silent _ _ Hc) as (Hc1 & _ & Hc3 & _).
    rewrite failed_sends_dumps, sent_to_dumps, failed_sends_app, sent_to_app.
    rewrite Hc1, Hc3, !app_nil_r.
    rewrite (members_lookup _ _ _ Hch), (members_lookup _ _ _ Hl).
    split_and!; [done | | by left].
    rewrite <- Hsent. apply failed_sends_sublist.
  - apply Hskip, broadcast_skipped. eauto.
  - apply Hskip, broadcast_skipped. eauto.
Qed.

(** [disconnect] and [broadcast] never add a member. *)
Lemma exec_shrinks c channel s :
  (∀ websocket channel', c ≠ Connect websocket channel') →
  members (exec c s).2 channel `sublist_of` members s channel.
Proof.
  intros Hc. destruct c as [ws ch | ws ch | ch data]; simpl.
  - by destruct (Hc ws ch).
  - destruct (decide (ch = channel)) as [->|Hne].
    + rewrite disconnect_members. apply discard_sublist.
    + by rewrite disconnect_members_ne.
  - destruct (decide (ch = channel)) as [->|Hne].
    + rewrite (proj1 (broadcast_members channel data s)). apply discard_all_sublist.
    + by rewrite broadcast_members_ne.
Qed.

(** ** Properties of single calls *)

(** C1 (isolation).  On a channel whose connections are A, B and C, when in
    a broadcast the send to B fails and the sends to A and C do not, the
    broadcast returns normally, has called [send_text] once on every member
    and has delivered the serialised payload to A and to C; afterwards B is
    no longer a member of the channel and A and C still are. *)
Theorem broadcast_isolates_failed_send channel data s l (A B C : WebSocket) :
  active_connections s !! channel = Some l →
  l ≡ₚ [A; B; C] →
  NoDup [A; B; C] →
  let s' := (broadcast channel data s).2 in
  let evs := new_events s s' in
  B ∈ failed_sends evs →
  A ∉ failed_sends evs →
  C ∉ failed_sends evs →
  (broadcast channel data s).1 = Return tt
  ∧ sent_to evs = l
  ∧ (∃ message,
       json_dumps data = Return message
       ∧ (A, message) ∈ delivered evs
       ∧ (C, message) ∈ delivered evs)
  ∧ (B ∉ members s' channel)
  ∧ A ∈ members s' channel
  ∧ C ∈ members s' channel.
Proof using Type.
  intros Hl Hperm Hnd s' evs0. subst s' evs0.
  destruct (json_dumps data) as [message|e] eqn:Hd; cycle 1.
  { rewrite (broadcast_rejected _ _ _ l e) by done. simpl.
    unfold new_events. rewrite drop_all. intros HB. by apply elem_of_nil in HB. }
  destruct (broadcast_spec channel data s l message Hl Hd)
    as (evs & cevs & s' & Hb & Htr & Hsent & Hall & Hc & Hch & _).
  rewrite Hb. simpl.
  destruct (cleanup_events_silent _ _ Hc) as (Hc1 & Hc2 & Hc3 & _).
  rewrite (new_events_app _ _ _ Htr).
  rewrite failed_sends_dumps, sent_to_dumps, delivered_dumps.
  rewrite failed_sends_app, sent_to_app, delivered_app, Hc1, Hc2, Hc3, !app_nil_r.
  intros HB HA HC.
  assert (Hnl : NoDup l) by by rewrite Hperm.
  assert (Hmem : ∀ x, x ∈ l ↔ x = A ∨ x = B ∨ x = C).
  { intros x. rewrite Hperm, !elem_of_cons. split.
    - intros [?|[?|[?|?%elem_of_nil]]]; auto; done.
    - intros [?|[?|?]]; auto. }
  assert (Hok : ∀ x, x ∈ l → x ∉ failed_sends evs → (x, message) ∈ delivered evs).
  { intros x Hx Hgood.
    rewrite <- Hsent in Hx. destruct (sent_to_outcome _ _ Hx) as [Hf | [m Hm]]; [done|].
    by destruct (sweep_events_delivered _ _ _ _ _ Hall Hm) as [-> _]. }
  unfold members. rewrite Hch. simpl.
  rewrite !elem_of_discard_all_NoDup by done.
  split_and!.
  - done.
  - done.
  - exists message. split_and!; [done | |]; (apply Hok; [apply Hmem; auto | done]).
  - by intros [_ ?].
  - apply Hmem; auto.
  - done.
  - apply Hmem; auto.
  - done.
Qed.

(** C4 (idempotent disconnect).  [disconnect] never raises.  When the
    connection is not a member of the channel, and so when the channel does
    not exist, the call changes nothing at all.  On a channel without
    duplicates the connection is not a member after the first call, so a
    second call in a row changes nothing. *)
Theorem disconnect_never_raises websocket channel s :
  (disconnect websocket channel s).1 = Return tt
  ∧ (websocket ∉ members s channel → (disconnect websocket channel s).2 = s)
  ∧ (active_connections s !! channel = None → (disconnect websocket channel s).2 = s)
  ∧ (NoDup (members s channel) →
       let s1 := (disconnect websocket channel s).2 in
       (websocket ∉ members s1 channel)
       ∧ disconnect websocket channel s1 = (Return tt, s1)).
Proof using Type.
  assert (Hnoop : ∀ s0, websocket ∉ members s0 channel →
                        disconnect websocket channel s0 = (Return tt, s0)).
  { intros s0 Hn. rewrite disconnect_unfold. unfold members in Hn.
    destruct (active_connections s0 !! channel) as [l|]; [|done].
    simpl in Hn. by rewrite (proj2 (list_remove_None websocket l) Hn). }
  split_and!.
  - apply disconnect_returns.
  - intros Hn. by rewrite Hnoop.
  - intros Hn. rewrite Hnoop; [done|]. unfold members. rewrite Hn.
    apply not_elem_of_nil.
  - intros Hnd s1.
    assert (Hout : websocket ∉ members s1 channel).
    { unfold s1. unfold members in Hnd |- *. rewrite disconnect_lookup.
      destruct (active_connections s !! channel) as [l|]; simpl in Hnd |- *;
        [|apply not_elem_of_nil].
      rewrite elem_of_discard_NoDup by done. by intros [_ ?]. }
    split; [done | by apply Hnoop].
Qed.

(** C7 (cross-channel independence).  For distinct channels X and Y, a
    [disconnect] on X and a [broadcast] on X, whatever sends fail in it,
    leave the connection list and the connection count of Y as they were. *)
Theorem other_channel_untouched (X Y : string) websocket data s :
  X ≠ Y →
  active_connections (disconnect websocket X s).2 !! Y = active_connections s !! Y
  ∧ active_connections (broadcast X data s).2 !! Y = active_connections s !! Y
  ∧ (get_connection_count Y (disconnect websocket X s).2).1 = (get_connection_count Y s).1
  ∧ (get_connection_count Y (broadcast X data s).2).1 = (get_connection_count Y s).1.
Proof.
  intros Hne. rewrite !get_connection_count_unfold. unfold members. simpl.
  rewrite disconnect_lookup_ne, broadcast_lookup_ne by done. done.
Qed.

(** C8 (handshake failure).  When [websocket.accept()] raises inside
    [connect], the exception reaches the caller of [connect] and the registry
    is exactly what it was: the connection is in no channel it was not in. *)
Theorem connect_handshake_failure websocket channel s e :
  (ws_accept websocket (net s)).1 = Some e →
  (connect websocket channel s).1 = Raise e
  ∧ active_connections (connect websocket channel s).2 = active_connections s.
Proof.
  intros H. rewrite connect_unfold.
  destruct (ws_accept websocket (net s)) as [r t]. simpl in H. by subst r.
Qed.

(** C5 (serialise once, send many), as the code has it.  A [broadcast] on a
    channel that is in the registry, with a payload the serialiser accepts,
    calls the serialiser exactly once, calls [send_text] once on every
    member, and every text that is delivered is that one serialised text;
    when no send fails every member receives it and the registry, hence the
    connection count, is what it was.  A [broadcast] on a channel that is not
    in the registry returns before the serialiser is called; one whose
    payload the serialiser rejects raises that exception with nothing sent
    and the state as it was. *)
Theorem broadcast_serialises_once channel data s :
  let s' := (broadcast channel data s).2 in
  let evs := new_events s s' in
  (active_connections s !! channel = None → s' = s ∧ serialisations evs = [])
  ∧ (∀ l message,
       active_connections s !! channel = Some l →
       json_dumps data = Return message →
       serialisations evs = [message]
       ∧ sent_to evs = l
       ∧ (∀ ws m, (ws, m) ∈ delivered evs → m = message)
       ∧ (failed_sends evs = [] →
            delivered evs = (λ ws, (ws, message)) <$> l
            ∧ active_connections s' = active_connections s
            ∧ get_connection_count channel s' = (Return (length l), s')))
  ∧ (∀ l e,
       active_connections s !! channel = Some l →
       json_dumps data = Raise e →
       broadcast channel data s = (Raise e, s)).
Proof.
  intros s' evs. subst s' evs. split_and!.
  - intros H. rewrite broadcast_unknown by done. simpl. split; [done|].
    unfold new_events. by rewrite drop_all.
  - intros l message Hl Hd.
    destruct (broadcast_spec channel data s l message Hl Hd)
      as (evs & cevs & s' & Hb & Htr & Hsent & Hall & Hc & Hch & Hother).
    rewrite Hb. simpl. rewrite (new_events_app _ _ _ Htr).
    destruct (cleanup_events_silent _ _ Hc) as (Hc1 & Hc2 & Hc3 & Hc4).
    rewrite serialisations_dumps, sent_to_dumps, delivered_dumps, failed_sends_dumps.
    rewrite serialisations_app, sent_to_app, delivered_app, failed_sends_app.
    rewrite Hc1, Hc2, Hc3, Hc4, !app_nil_r.
    rewrite (sweep_events_no_dumps _ _ _ Hall).
    split_and!; [done | done | |].
    + intros ws m Hm. by destruct (sweep_events_delivered _ _ _ _ _ Hall Hm).
    + intros Hf. rewrite Hf in Hch. simpl in Hch.
      assert (Hsame : active_connections s' = active_connections s).
      { apply map_eq. intros k. destruct (decide (channel = k)) as [<-|Hne].
        - by rewrite Hch, Hl.
        - by apply Hother. }
      split_and!; [|done|].
      * by rewrite (sweep_events_all_delivered _ _ _ Hall Hf), Hsent.
      * rewrite get_connection_count_unfold. unfold members. by rewrite Hch.
  - intros l e Hl Hd. by apply (broadcast_rejected _ _ _ l).
Qed.

(** ** The ledger of the logger *)

Lemma sweep_events_no_records channel message evs c :
  Forall (sweep_event channel message) evs →
  connected_records c evs = 0 ∧ disconnected_records c evs = 0.
Proof.
  induction 1 as [|ev evs Hev _ IH]; [done|].
  destruct ev; done.
Qed.

Lemma balanced_init t : balanced (init t).
Proof. intros channel. by rewrite members_init. Qed.

Lemma connect_balanced websocket channel s :
  balanced s → balanced (connect websocket channel s).2.
Proof.
  intros Hs c. specialize (Hs c).
  destruct (decide (channel = c)) as [<-|Hne].
  - rewrite connect_members. rewrite connect_unfold.
    destruct (ws_accept websocket (net s)) as [[e|] t]; simpl.
    + rewrite connected_records_app, disconnected_records_app.
      unfold connected_records, disconnected_records in Hs |- *. simpl. lia.
    + rewrite connected_records_app, disconnected_records_app, length_app.
      unfold connected_records, disconnected_records in Hs |- *. simpl.
      rewrite decide_True by done. simpl. lia.
  - rewrite connect_members_ne by done. rewrite connect_unfold.
    destruct (ws_accept websocket (net s)) as [[e|] t]; simpl.
    + rewrite connected_records_app, disconnected_records_app.
      unfold connected_records, disconnected_records in Hs |- *. simpl. lia.
    + rewrite connected_records_app, disconnected_records_app.
      unfold connected_records, disconnected_records in Hs |- *. simpl.
      rewrite decide_False by done. simpl. lia.
Qed.

Lemma disconnect_balanced websocket channel s :
  balanced s → balanced (disconnect websocket channel s).2.
Proof.
  intros Hs c. specialize (Hs c). revert Hs.
  destruct (decide (channel = c)) as [<-|Hne].
  - rewrite disconnect_members. rewrite disconnect_unfold. unfold members, discard. simpl.
    destruct (active_connections s !! channel) as [l|]; simpl; [|done].
    destruct (list_remove websocket l) as [l'|] eqn:Hr; simpl; [|done].
    rewrite (list_remove_Some_length _ _ _ Hr).
    rewrite connected_records_app, disconnected_records_app.
    unfold connected_records, disconnected_records. simpl.
    rewrite decide_True by done. simpl. lia.
  - rewrite disconnect_members_ne by done. rewrite disconnect_unfold. simpl.
    destruct (active_connections s !! channel) as [l|]; simpl; [|done].
    destruct (list_remove websocket l) as [l'|] eqn:Hr; simpl; [|done].
    rewrite connected_records_app, disconnected_records_app.
    unfold connected_records, disconnected_records. simpl.
    rewrite decide_False by done. simpl. lia.
Qed.

Lemma evict_balanced channel dc s :
  balanced s → balanced (foldl (λ s client, (disconnect client channel s).2) s dc).
Proof.
  revert s. induction dc as [|c dc IH]; intros s Hs; simpl; [done|].
  by apply IH, disconnect_balanced.
Qed.

Lemma broadcast_balanced channel data s :
  balanced s → balanced (broadcast channel data s).2.
Proof.
  intros Hs. destruct (active_connections s !! channel) as [l|] eqn:Hl;
    [destruct (json_dumps data) as [message|e] eqn:Hdumps|].
  - destruct (broadcast_known channel data s l message Hl Hdumps)
      as (evs & t & -> & _ & Hall).
    simpl. apply evict_balanced. intros c. specialize (Hs c).
    destruct (sweep_events_no_records _ _ _ c Hall) as [Hc Hd].
    unfold members in Hs |- *. simpl.
    rewrite connected_records_app, disconnected_records_app.
    change (JsonDumps message :: evs) with ([JsonDumps message] ++ evs).
    rewrite connected_records_app, disconnected_records_app, Hc, Hd. simpl. lia.
  - by rewrite broadcast_skipped by eauto.
  - by rewrite broadcast_skipped by eauto.
Qed.

Lemma run_balanced cs s : balanced s → balanced (run cs s).
Proof.
  revert s. induction cs as [|c cs IH]; intros s Hs; simpl; [done|].
  apply IH. destruct c; simpl.
  - by apply connect_balanced.
  - by apply disconnect_balanced.
  - by apply broadcast_balanced.
Qed.

(** ** Channels no [connect] has named *)

Lemma broadcast_empty channel data s message :
  active_connections s !! channel = Some [] →
  json_dumps data = Return message →
  broadcast channel data s =
  (Return tt, mkState (active_connections s) (net s) (trace s ++ [JsonDumps message])).
Proof.
  intros H Hd. unfold broadcast, dumps. run_body. rewrite H, Hd. simpl. by rewrite H.
Qed.

Lemma members_nil_lookup s channel :
  members s channel = [] →
  active_connections s !! channel = None ∨ active_connections s !! channel = Some [].
Proof.
  unfold members. destruct (active_connections s !! channel) as [l|]; simpl; [|by left].
  intros ->. by right.
Qed.

Lemma exec_untouched c channel s :
  (∀ websocket, c ≠ Connect websocket channel) →
  members s channel = [] →
  active_connections (exec c s).2 !! channel = active_connections s !! channel.
Proof.
  intros Hc Hm. destruct c as [ws ch | ws ch | ch data]; simpl.
  - apply connect_lookup_ne. intros ->. by destruct (Hc ws).
  - destruct (decide (ch = channel)) as [->|Hne]; [|by apply disconnect_lookup_ne].
    rewrite disconnect_lookup. by destruct (members_nil_lookup _ _ Hm) as [-> | ->].
  - destruct (decide (ch = channel)) as [->|Hne]; [|by apply broadcast_lookup_ne].
    destruct (members_nil_lookup _ _ Hm) as [H | H].
    + by rewrite broadcast_unknown.
    + destruct (json_dumps data) as [message|e] eqn:Hd.
      * by rewrite (broadcast_empty _ _ _ message).
      * by rewrite broadcast_skipped by eauto.
Qed.

Lemma run_untouched cs channel s :
  Forall (λ c, ∀ websocket, c ≠ Connect websocket channel) cs →
  members s channel = [] →
  active_connections (run cs s) !! channel = active_connections s !! channel.
Proof.
  intros Hcs. revert s. induction Hcs as [|c cs Hc _ IH]; intros s Hm; simpl; [done|].
  pose proof (exec_untouched c channel s Hc Hm) as Hstep.
  rewrite IH, Hstep; [done|]. unfold members in Hm |- *. by rewrite Hstep.
Qed.

(** A channel entry, once made, is never deleted. *)
Lemma exec_keeps_channel c channel s :
  is_Some (active_connections s !! channel) →
  is_Some (active_connections (exec c s).2 !! channel).
Proof.
  intros Hs. destruct c as [ws ch | ws ch | ch data]; simpl.
  - rewrite connect_unfold.
    destruct (ws_accept ws (net s)) as [[e|] t]; simpl; [done|].
    rewrite lookup_insert. by case_decide.
  - destruct (decide (ch = channel)) as [->|Hne]; [|by rewrite disconnect_lookup_ne].
    rewrite disconnect_lookup. by apply fmap_is_Some.
  - destruct (decide (ch = channel)) as [->|Hne]; [|by rewrite broadcast_lookup_ne].
    destruct (json_dumps data) as [message|e] eqn:Hd.
    + destruct Hs as [l Hl].
      destruct (broadcast_spec channel data s l message Hl Hd)
        as (evs & cevs & s' & Hb & _ & _ & _ & _ & Hch & _).
      rewrite Hb. simpl. by rewrite Hch.
    + by rewrite broadcast_skipped by eauto.
Qed.

Lemma run_keeps_channel cs channel s :
  is_Some (active_connections s !! channel) →
  is_Some (active_connections (run cs s) !! channel).
Proof.
  revert s. induction cs as [|c cs IH]; intros s Hs; simpl; [done|].
  by apply IH, exec_keeps_channel.
Qed.

(** ** Properties of sequences of calls *)

(** C3 (auto-creation), as the code has it.  On a channel name that no
    [connect] has named yet, [broadcast] leaves the registry and the
    transport as they were, sends nothing and leaves the channel without a
    connection.  It returns normally, with the state as it was, when the
    name is not in the registry, as is every name outside the four channels
    of [__init__], and it returns normally when the serialiser accepts the
    payload; on a name of [__init__] with a payload the serialiser rejects it
    raises that exception.  A [connect] of a connection to that name whose
    handshake succeeds then makes the channel entry the list of that one
    connection. *)
Theorem broadcast_before_connect t cs channel data websocket :
  Forall (λ c, ∀ ws, c ≠ Connect ws channel) cs →
  let s := run cs (init t) in
  let s1 := (broadcast channel data s).2 in
  active_connections s1 = active_connections s
  ∧ net s1 = net s
  ∧ sent_to (new_events s s1) = []
  ∧ members s1 channel = []
  ∧ (channel ∉ ["alerts"; "metrics"; "network_traffic"; "logs"] →
       broadcast channel data s = (Return tt, s))
  ∧ (∀ message, json_dumps data = Return message →
       (broadcast channel data s).1 = Return tt)
  ∧ (∀ e, json_dumps data = Raise e →
       channel ∈ ["alerts"; "metrics"; "network_traffic"; "logs"] →
       broadcast channel data s = (Raise e, s))
  ∧ ((ws_accept websocket (net s1)).1 = None →
       (connect websocket channel s1).1 = Return tt
       ∧ active_connections (connect websocket channel s1).2 !! channel = Some [websocket]).
Proof.
  intros Hcs s s1.
  pose proof (run_untouched cs channel _ Hcs (members_init t channel)) as Hsame.
  fold s in Hsame.
  assert (Hm : members s channel = []).
  { unfold members. rewrite Hsame. apply members_init. }
  assert (Hdefault : channel ∈ ["alerts"; "metrics"; "network_traffic"; "logs"] →
            active_connections s !! channel = Some []).
  { intros Hin. rewrite Hsame. rewrite !elem_of_cons in Hin.
    destruct Hin as [-> | [-> | [-> | [-> | Hin]]]]; [done | done | done | done |].
    by apply elem_of_nil in Hin. }
  assert (Hfresh : channel ∉ ["alerts"; "metrics"; "network_traffic"; "logs"] →
            active_connections s !! channel = None).
  { intros Hout. rewrite Hsame. unfold init. simpl.
    rewrite !not_elem_of_cons in Hout. destruct Hout as (? & ? & ? & ? & _).
    by rewrite !lookup_insert_ne, lookup_empty by done. }
  assert (Hnil : new_events s s = []) by (unfold new_events; by rewrite drop_all).
  assert (Hb : active_connections s1 = active_connections s
               ∧ net s1 = net s
               ∧ sent_to (new_events s s1) = []
               ∧ ∀ message, json_dumps data = Return message →
                            (broadcast channel data s).1 = Return tt).
  { subst s1. destruct (members_nil_lookup _ _ Hm) as [H | H].
    - rewrite broadcast_unknown by done. simpl. by rewrite Hnil.
    - destruct (json_dumps data) as [message|e] eqn:Hd.
      + rewrite (broadcast_empty _ _ _ message) by done. simpl.
        split_and!; try done. erewrite new_events_app; [|done]. done.
      + rewrite (broadcast_rejected _ _ _ [] e) by done. simpl. by rewrite Hnil. }
  destruct Hb as (Hb1 & Hb2 & Hb3 & Hb4).
  assert (Hm1 : members s1 channel = []) by (unfold members in Hm |- *; by rewrite Hb1).
  split_and!; try done.
  - intros Hout. by apply broadcast_unknown, Hfresh.
  - intros e Hd Hin. by apply (broadcast_rejected _ _ _ []), Hd; apply Hdefault.
  - intros Hacc. rewrite connect_unfold.
    destruct (ws_accept websocket (net s1)) as [r t1]. simpl in Hacc. subst r. simpl.
    by rewrite lookup_insert_eq, Hm1.
Qed.

(** C10.  On a channel name that no [connect] has named,
    [get_connection_count] returns 0 without raising and leaves the state as
    it was; a name outside the four channels of [__init__] still has no entry
    in the registry afterwards. *)
Theorem count_of_unseen_channel t cs channel :
  Forall (λ c, ∀ ws, c ≠ Connect ws channel) cs →
  let s := run cs (init t) in
  get_connection_count channel s = (Return 0, s)
  ∧ (channel ∉ ["alerts"; "metrics"; "network_traffic"; "logs"] →
       active_connections (get_connection_count channel s).2 !! channel = None).
Proof.
  intros Hcs s.
  pose proof (run_untouched cs channel _ Hcs (members_init t channel)) as Hsame.
  fold s in Hsame. split.
  - rewrite get_connection_count_unfold. unfold members. rewrite Hsame.
    fold (members (init t) channel). by rewrite members_init.
  - intros Hout. rewrite get_connection_count_unfold. simpl. rewrite Hsame.
    unfold init. simpl. rewrite !not_elem_of_cons in Hout.
    destruct Hout as (? & ? & ? & ? & _).
    by rewrite !lookup_insert_ne, lookup_empty by done.
Qed.


(** C6 (count consistency).  In every state reached from a new manager by
    calls of connect, disconnect and broadcast, whatever the transport does,
    [get_connection_count] returns the number of connections in the
    channel's list, which is the number of connections the log says were
    connected to the channel and not disconnected from it since; and the call
    leaves the state as it was. *)
Theorem count_is_consistent t cs channel :
  let s := run cs (init t) in
  get_connection_count channel s = (Return (length (members s channel)), s)
  ∧ length (members s channel) + disconnected_records channel (trace s) =
    connected_records channel (trace s).
Proof.
  intros s. split; [apply get_connection_count_unfold|].
  apply run_balanced, balanced_init.
Qed.

(** C2 (all counts), as the code has it.  The four channels of [__init__]
    are always in the registry.  From a new manager, after calls whose
    [connect]s name only "alerts", "metrics" and "logs" and that leave two
    connections on "alerts", none on "metrics" and one on "logs",
    [get_all_connection_counts] returns exactly four entries: those three
    counts and "network_traffic" with 0; and it leaves the state as it was. *)
Theorem all_counts_of_scenario t cs :
  Forall (λ c, ∀ ws ch, c = Connect ws ch → ch ∈ ["alerts"; "metrics"; "logs"]) cs →
  let s := run cs (init t) in
  length (members s "alerts") = 2 →
  length (members s "metrics") = 0 →
  length (members s "logs") = 1 →
  get_all_connection_counts s =
  (Return (<["alerts" := 2]> (<["metrics" := 0]> (<["network_traffic" := 0]>
             (<["logs" := 1]> ∅)))), s).
Proof.
  intros Hcs s Ha Hm Hl. unfold get_all_connection_counts. do 2 f_equal.
  assert (Hno : ∀ k, k ∉ ["alerts"; "metrics"; "logs"] →
                     active_connections s !! k = active_connections (init t) !! k).
  { intros k Hk. apply run_untouched; [|apply members_init].
    eapply Forall_impl; [apply Hcs|]. intros c Hc ws ->. by apply Hk, (Hc ws). }
  assert (Hyes : ∀ k n, is_Some (active_connections (init t) !! k) →
                        length (members s k) = n →
                        (length <$> active_connections s) !! k = Some n).
  { intros k n Hk Hn. rewrite lookup_fmap.
    destruct (run_keeps_channel cs k (init t) Hk) as [l Hlook]. fold s in Hlook.
    rewrite Hlook. simpl. by rewrite <- Hn, (members_lookup _ _ _ Hlook). }
  apply map_eq. intros k.
  destruct (decide (k = "alerts")) as [->|H1]; [by rewrite (Hyes _ 2)|].
  destruct (decide (k = "metrics")) as [->|H2]; [by rewrite (Hyes _ 0)|].
  destruct (decide (k = "logs")) as [->|H3]; [by rewrite (Hyes _ 1)|].
  rewrite lookup_fmap, Hno by set_solver.
  unfold init. simpl.
  destruct (decide (k = "network_traffic")) as [->|H4]; [done|].
  by rewrite !lookup_insert_ne, !lookup_empty by done.
Qed.

(** ** Fresh connections *)

Lemma run_app cs1 cs2 s : run (cs1 ++ cs2) s = run cs2 (run cs1 s).
Proof. apply foldl_app. Qed.

Lemma seen_after_app cs1 cs2 seen :
  seen_after (cs1 ++ cs2) seen = seen_after cs2 (seen_after cs1 seen).
Proof. apply foldl_app. Qed.

Lemma seen_after_mono cs seen ws : ws ∈ seen → ws ∈ seen_after cs seen.
Proof.
  revert seen. induction cs as [|c cs IH]; intros seen H; simpl; [done|].
  apply IH. destruct c; [by right | done | done].
Qed.

Lemma fresh_connects_app seen pre post :
  fresh_connects seen (pre ++ post) ↔
  fresh_connects seen pre ∧ fresh_connects (seen_after pre seen) post.
Proof.
  revert seen. induction pre as [|c pre IH]; intros seen; simpl.
  - split; [by intros ? | by intros [_ ?]].
  - destruct c; rewrite ?IH; simpl; [|done|done].
    split; [by intros (? & ? & ?) | by intros ((? & ?) & ?)].
Qed.

(** With fresh handles the channels stay free of duplicates, and every
    member is a handle that was passed to [connect]. *)
Lemma exec_fresh c seen s :
  fresh_connects seen [c] →
  (∀ channel, NoDup (members s channel)) →
  (∀ channel ws, ws ∈ members s channel → ws ∈ seen) →
  (∀ channel, NoDup (members (exec c s).2 channel))
  ∧ (∀ channel ws, ws ∈ members (exec c s).2 channel → ws ∈ seen_after [c] seen).
Proof.
  intros Hf Hnd Hseen.
  destruct c as [ws ch | ws ch | ch data].
  - simpl in Hf |- *. destruct Hf as [Hnew _].
    assert (Hcase : ∀ channel,
              members (connect ws ch s).2 channel = members s channel
              ∨ members (connect ws ch s).2 channel = members s channel ++ [ws]).
    { intros channel. destruct (decide (ch = channel)) as [<-|Hne].
      - rewrite connect_members. destruct ((ws_accept ws (net s)).1); auto.
      - left. by apply connect_members_ne. }
    split.
    + intros channel. destruct (Hcase channel) as [-> | ->]; [done|].
      apply NoDup_app. split_and!; [done | | apply NoDup_singleton].
      intros x Hx ->%list_elem_of_singleton. by apply Hnew, (Hseen channel).
    + intros channel x. destruct (Hcase channel) as [-> | ->].
      * intros Hx. right. by apply (Hseen channel).
      * rewrite elem_of_app, list_elem_of_singleton.
        intros [Hx | ->]; [right; by apply (Hseen channel) | left].
  - assert (Hsub : ∀ channel, members (exec (Disconnect ws ch) s).2 channel
                              `sublist_of` members s channel).
    { intros channel. by apply exec_shrinks. }
    split.
    + intros channel. eapply sublist_NoDup; [apply Hnd | apply Hsub].
    + intros channel x Hx. apply (Hseen channel). eapply elem_of_sublist; [done | apply Hsub].
  - assert (Hsub : ∀ channel, members (exec (Broadcast ch data) s).2 channel
                              `sublist_of` members s channel).
    { intros channel. by apply exec_shrinks. }
    split.
    + intros channel. eapply sublist_NoDup; [apply Hnd | apply Hsub].
    + intros channel x Hx. apply (Hseen channel). eapply elem_of_sublist; [done | apply Hsub].
Qed.

Lemma run_fresh cs seen s :
  fresh_connects seen cs →
  (∀ channel, NoDup (members s channel)) →
  (∀ channel ws, ws ∈ members s channel → ws ∈ seen) →
  (∀ channel, NoDup (members (run cs s) channel))
  ∧ (∀ channel ws, ws ∈ members (run cs s) channel → ws ∈ seen_after cs seen).
Proof.
  revert seen s. induction cs as [|c cs IH]; intros seen s Hf Hnd Hseen; [done|].
  change (c :: cs) with ([c] ++ cs) in Hf |- *.
  apply fresh_connects_app in Hf as [Hc Hcs].
  rewrite run_app, seen_after_app.
  destruct (exec_fresh c seen s Hc Hnd Hseen) as [Hnd' Hseen'].
  by apply IH.
Qed.

(** A handle that was passed to [connect] and is not in a channel does not
    come back to it. *)
Lemma run_no_return cs seen s channel ws :
  fresh_connects seen cs →
  ws ∈ seen →
  ws ∉ members s channel →
  ws ∉ members (run cs s) channel.
Proof.
  revert seen s. induction cs as [|c cs IH]; intros seen s Hf Hws Hout; [done|].
  change (c :: cs) with ([c] ++ cs) in Hf |- *.
  apply fresh_connects_app in Hf as [Hc Hcs].
  rewrite run_app. eapply IH; [done | by apply seen_after_mono |].
  destruct c as [ws' ch | ws' ch | ch data].
  - simpl in Hc |- *. destruct Hc as [Hnew _].
    destruct (decide (ch = channel)) as [<-|Hne]; [|by rewrite connect_members_ne].
    rewrite connect_members. destruct ((ws_accept ws' (net s)).1); [done|].
    rewrite elem_of_app, list_elem_of_singleton. intros [? | ->]; [done|]. by apply Hnew.
  - intros Hin. apply Hout. eapply elem_of_sublist; [done|]. by apply exec_shrinks.
  - intros Hin. apply Hout. eapply elem_of_sublist; [done|]. by apply exec_shrinks.
Qed.

(** C9 (channel invariant).  When every handle passed to [connect] is fresh
    (it was not passed to [connect] before, and so it is in no channel), then
    after every sequence of calls each channel is free of duplicates and
    holds no connection that has been removed from it.  A [disconnect] of a
    member and a failed send of a broadcast on the channel are removals. *)
Theorem fresh_connects_keep_channels_clean t cs :
  fresh_connects [] cs →
  let s := run cs (init t) in
  (∀ channel, NoDup (members s channel))
  ∧ (∀ channel ws, ws ∈ members s channel → ¬ removed_from cs (init t) channel ws)
  ∧ (∀ pre ws channel post,
       cs = pre ++ Disconnect ws channel :: post →
       ws ∈ members (run pre (init t)) channel →
       removed_from cs (init t) channel ws)
  ∧ (∀ pre channel data post ws,
       cs = pre ++ Broadcast channel data :: post →
       ws ∈ failed_sends (new_events (run pre (init t))
                                     (run (pre ++ [Broadcast channel data]) (init t))) →
       removed_from cs (init t) channel ws).
Proof.
  intros Hf s.
  assert (Hinit_nd : ∀ channel, NoDup (members (init t) channel)).
  { intros channel. rewrite members_init. apply NoDup_nil_2. }
  assert (Hinit_seen : ∀ channel ws, ws ∈ members (init t) channel → ws ∈ []).
  { intros channel ws. by rewrite members_init. }
  assert (Hprefix : ∀ pre rest, cs = pre ++ rest →
            (∀ channel, NoDup (members (run pre (init t)) channel))
            ∧ (∀ channel ws, ws ∈ members (run pre (init t)) channel →
                             ws ∈ seen_after pre [])
            ∧ fresh_connects (seen_after pre []) rest).
  { intros pre rest ->. apply fresh_connects_app in Hf as [Hpre Hrest].
    destruct (run_fresh pre [] (init t) Hpre Hinit_nd Hinit_seen). done. }
  split_and!.
  - by destruct (Hprefix cs [] (eq_sym (app_nil_r cs))).
  - intros channel ws Hin (pre & c & post & Hcs & Hwas & Hgone).
    destruct (Hprefix pre (c :: post) Hcs) as (_ & Hseen & _).
    destruct (Hprefix (pre ++ [c]) post) as (_ & _ & Hpost).
    { by rewrite <- (assoc_L (++)). }
    revert Hin. unfold s. rewrite Hcs, (cons_middle c pre post), (assoc_L (++)), run_app.
    eapply run_no_return; [done | | done].
    rewrite seen_after_app. apply seen_after_mono. by apply (Hseen channel).
  - intros pre ws channel post Hcs Hwas.
    exists pre, (Disconnect ws channel), post. split_and!; [done | done |].
    destruct (Hprefix pre _ Hcs) as (Hnd & _ & _).
    rewrite run_app. simpl. rewrite disconnect_members.
    rewrite elem_of_discard_NoDup by done. by intros [_ ?].
  - intros pre channel data post ws Hcs Hfail.
    destruct (Hprefix pre _ Hcs) as (Hnd & _ & _).
    revert Hfail. rewrite run_app. simpl. intros Hfail.
    destruct (broadcast_members channel data (run pre (init t))) as (Hafter & Hsub & _).
    exists pre, (Broadcast channel data), post. split_and!; [done | |].
    + by apply (elem_of_sublist _ _ _ Hfail).
    + rewrite run_app. simpl. rewrite Hafter.
      rewrite elem_of_discard_all_NoDup by done. by intros [_ ?].
Qed.

(** ** Further properties of the manager *)

(** Removing, one after the other, handles that are all in the list (with
    their multiplicity) takes exactly those out. *)
Lemma discard_all_perm dc l :
  dc ⊆+ l → l ≡ₚ dc ++ foldl (λ l x, discard x l) l dc.
Proof.
  revert l. induction dc as [|x dc IH]; intros l Hsub; simpl; [done|].
  apply submseteq_cons_l in Hsub as (k & Hk & Hdc).
  assert (Hx : x ∈ l) by (rewrite Hk; left).
  unfold discard at 2.
  destruct (list_remove x l) as [l'|] eqn:Hr.
  - simpl. pose proof (list_remove_Some_perm _ _ _ Hr) as Hl.
    assert (Hkl : k ≡ₚ l').
    { apply (inj (x ::.)). by rewrite <- Hk, <- Hl. }
    rewrite Hl at 1. apply Permutation_skip, IH. by rewrite <- Hkl.
  - by apply list_remove_None in Hr.
Qed.

(** [list.remove] takes the first occurrence. *)
Lemma list_remove_first x l1 l2 :
  x ∉ l1 → list_remove x (l1 ++ x :: l2) = Some (l1 ++ l2).
Proof.
  induction l1 as [|y l1 IH]; simpl; intros Hx.
  - by rewrite decide_True.
  - apply not_elem_of_cons in Hx as [Hne Hx].
    rewrite decide_False by done. by rewrite IH.
Qed.

Lemma no_delivery_all_failed evs : delivered evs = [] → failed_sends evs = sent_to evs.
Proof.
  induction evs as [|ev evs IH]; [done|].
  destruct ev as [| ws m [] | | | | |]; simpl; try done.
  intros H. by rewrite IH.
Qed.

(** X1.  [send_personal_message] never raises and never changes the
    registry: it calls [send_text] once, and when that raises it writes an
    error record and leaves the connection in every channel it was in. *)
Theorem personal_message_is_contained message websocket s :
  let s' := (send_personal_message message websocket s).2 in
  (send_personal_message message websocket s).1 = Return tt
  ∧ active_connections s' = active_connections s
  ∧ new_events s s' =
      match (ws_send_text websocket message (net s)).1 with
      | None => [SendText websocket message true]
      | Some e => [SendText websocket message false; LogPersonalError e]
      end.
Proof.
  unfold send_personal_message, send_text. run_body.
  destruct (ws_send_text websocket message (net s)) as [[e|] t]; simpl.
  - split_and!; [done | done |].
    apply new_events_app. simpl. by rewrite <- (assoc_L (++)).
  - split_and!; [done | done |]. by apply new_events_app.
Qed.

(** X2.  No failure of the transport makes [broadcast] raise: it returns
    normally whenever the channel is not in the registry or the serialiser
    accepts the payload, whatever the sends do.  The only exception it lets
    out is the one the serialiser raises on a registered channel, and then
    nothing was sent and the state is as it was. *)
Theorem broadcast_raises_only_serialiser_errors channel data s :
  (active_connections s !! channel = None → broadcast channel data s = (Return tt, s))
  ∧ (∀ message, json_dumps data = Return message →
       (broadcast channel data s).1 = Return tt)
  ∧ (∀ e, (broadcast channel data s).1 = Raise e →
       json_dumps data = Raise e
       ∧ is_Some (active_connections s !! channel)
       ∧ (broadcast channel data s).2 = s).
Proof.
  split_and!.
  - apply broadcast_unknown.
  - intros message Hd. destruct (active_connections s !! channel) as [l|] eqn:H.
    + destruct (broadcast_spec channel data s l message H Hd) as (evs & cevs & s' & Hb & _).
      by rewrite Hb.
    + by rewrite broadcast_unknown.
  - intros e. destruct (active_connections s !! channel) as [l|] eqn:H.
    + destruct (json_dumps data) as [message|e'] eqn:Hd.
      * destruct (broadcast_spec channel data s l message H Hd)
          as (evs & cevs & s' & Hb & _).
        by rewrite Hb.
      * rewrite (broadcast_rejected _ _ _ l e') by done. simpl.
        intros [= ->]. split_and!; [done | by eexists | done].
    + by rewrite broadcast_unknown.
Qed.

(** X3.  A broadcast evicts exactly one registration per failed send, also
    when a connection is registered more than once: the members before the
    broadcast are, up to order, the handles whose send failed together with
    the members after it; the members that stay keep their order. *)
Theorem broadcast_evicts_failed_sends channel data s :
  let s' := (broadcast channel data s).2 in
  let evs := new_events s s' in
  members s channel ≡ₚ failed_sends evs ++ members s' channel
  ∧ members s' channel `sublist_of` members s channel
  ∧ length (members s' channel) + length (failed_sends evs) = length (members s channel).
Proof.
  intros s' evs. subst s' evs.
  destruct (broadcast_members channel data s) as (Hafter & Hsub & _).
  assert (Hperm : members s channel ≡ₚ
            failed_sends (new_events s (broadcast channel data s).2)
            ++ members (broadcast channel data s).2 channel).
  { rewrite Hafter. by apply discard_all_perm, sublist_submseteq. }
  split_and!.
  - done.
  - rewrite Hafter. apply discard_all_sublist.
  - apply Permutation_length in Hperm. rewrite length_app in Hperm. lia.
Qed.

(** X4.  A [disconnect] of a member takes out one registration of that
    connection, the first one in the list, and nothing else: the count of
    the channel drops by exactly one. *)
Theorem disconnect_removes_one websocket channel s :
  websocket ∈ members s channel →
  let s' := (disconnect websocket channel s).2 in
  members s channel ≡ₚ websocket :: members s' channel
  ∧ get_connection_count channel s' = (Return (pred (length (members s channel))), s')
  ∧ (∀ l1 l2, members s channel = l1 ++ websocket :: l2 → websocket ∉ l1 →
       members s' channel = l1 ++ l2).
Proof.
  intros Hin s'. subst s'. rewrite get_connection_count_unfold, disconnect_members.
  unfold discard.
  destruct (list_remove websocket (members s channel)) as [l'|] eqn:Hr; simpl.
  - split_and!.
    + by apply list_remove_Some_perm.
    + by rewrite (list_remove_Some_length _ _ _ Hr).
    + intros l1 l2 Hl Hfirst. rewrite Hl, list_remove_first in Hr by done. by simplify_eq.
  - by apply list_remove_None in Hr.
Qed.

(** X5.  A [connect] whose handshake succeeds never refuses, whatever the
    size of the channel: it puts the connection at the end of the channel's
    list, so that the count of the channel goes up by one, writes that count
    to the log, and leaves every other channel as it was. *)
Theorem connect_appends websocket channel s :
  (ws_accept websocket (net s)).1 = None →
  let s' := (connect websocket channel s).2 in
  (connect websocket channel s).1 = Return tt
  ∧ members s' channel = members s channel ++ [websocket]
  ∧ get_connection_count channel s' = (Return (S (length (members s channel))), s')
  ∧ new_events s s' =
      [Accept websocket true; LogConnected channel (S (length (members s channel)))]
  ∧ (∀ channel', channel ≠ channel' →
       active_connections s' !! channel' = active_connections s !! channel').
Proof.
  intros Hacc s'. subst s'.
  rewrite get_connection_count_unfold, connect_members, Hacc.
  split_and!.
  - rewrite connect_unfold. destruct (ws_accept websocket (net s)) as [r t].
    simpl in Hacc. by subst r.
  - done.
  - by rewrite length_app, Nat.add_1_r.
  - rewrite connect_unfold. destruct (ws_accept websocket (net s)) as [r t].
    simpl in Hacc. subst r. by apply new_events_app.
  - intros channel' Hne. by apply connect_lookup_ne.
Qed.

Lemma connect_lookup websocket channel s :
  (ws_accept websocket (net s)).1 = None →
  active_connections (connect websocket channel s).2 !! channel =
  Some (members s channel ++ [websocket]).
Proof.
  intros Hacc. rewrite connect_unfold.
  destruct (ws_accept websocket (net s)) as [r t]. simpl in Hacc. subst r. simpl.
  by rewrite lookup_insert_eq.
Qed.

Lemma discard_last x l : x ∉ l → discard x (l ++ [x]) = l.
Proof.
  intros Hx. unfold discard. rewrite list_remove_first by done. simpl.
  by rewrite app_nil_r.
Qed.

(** X6.  Round trip.  A [connect] of a connection that is not in the
    channel, followed by its [disconnect], gives every channel the members
    it had; the registry is the one before the two calls, but for the entry
    of a channel that did not exist, which now exists and is empty. *)
Theorem connect_then_disconnect websocket channel s :
  (ws_accept websocket (net s)).1 = None →
  websocket ∉ members s channel →
  let s2 := (disconnect websocket channel (connect websocket channel s).2).2 in
  (∀ channel', members s2 channel' = members s channel')
  ∧ (is_Some (active_connections s !! channel) →
       active_connections s2 = active_connections s)
  ∧ (active_connections s !! channel = None →
       active_connections s2 !! channel = Some []).
Proof.
  intros Hacc Hout s2. subst s2.
  assert (Hch : active_connections
                  (disconnect websocket channel (connect websocket channel s).2).2
                  !! channel = Some (members s channel)).
  { rewrite disconnect_lookup, connect_lookup by done. simpl. by rewrite discard_last. }
  assert (Hother : ∀ channel', channel ≠ channel' →
            active_connections
              (disconnect websocket channel (connect websocket channel s).2).2
              !! channel' = active_connections s !! channel').
  { intros channel' Hne. by rewrite disconnect_lookup_ne, connect_lookup_ne. }
  split_and!.
  - intros channel'. destruct (decide (channel = channel')) as [<-|Hne].
    + by apply members_lookup.
    + unfold members. by rewrite Hother.
  - intros [l Hl]. apply map_eq. intros k.
    destruct (decide (channel = k)) as [<-|Hne]; [|by apply Hother].
    by rewrite Hch, Hl, (members_lookup _ _ _ Hl).
  - intros Hnone. rewrite Hch. unfold members. by rewrite Hnone.
Qed.

(** X7.  No call deletes a channel: a name that is in the registry is in it
    after every sequence of calls, and so the four channels of [__init__]
    are in every mapping [get_all_connection_counts] returns. *)
Theorem channels_are_never_deleted cs :
  (∀ s channel,
     is_Some (active_connections s !! channel) →
     is_Some (active_connections (run cs s) !! channel))
  ∧ (∀ t channel,
       channel ∈ ["alerts"; "metrics"; "network_traffic"; "logs"] →
       ∃ counts n,
         (get_all_connection_counts (run cs (init t))).1 = Return counts
         ∧ counts !! channel = Some n).
Proof.
  split.
  - intros s channel. apply run_keeps_channel.
  - intros t channel Hin.
    assert (Hinit : is_Some (active_connections (init t) !! channel)).
    { rewrite !elem_of_cons in Hin.
      destruct Hin as [-> | [-> | [-> | [-> | Hin]]]]; [done | done | done | done |].
      by apply elem_of_nil in Hin. }
    destruct (run_keeps_channel cs channel (init t) Hinit) as [l Hl].
    exists (length <$> active_connections (run cs (init t))), (length l).
    split; [done|]. by rewrite lookup_fmap, Hl.
Qed.

(** X8.  The two observers agree: the mapping returned by
    [get_all_connection_counts] has an entry exactly for the channels of the
    registry, the entry of a channel is what [get_connection_count] returns
    for it, and a channel without entry has count 0; neither call changes
    the state. *)
Theorem all_counts_agree_with_count s :
  ∃ counts,
    get_all_connection_counts s = (Return counts, s)
    ∧ (∀ channel,
         get_connection_count channel s = (Return (default 0 (counts !! channel)), s))
    ∧ (∀ channel,
         is_Some (counts !! channel) ↔ is_Some (active_connections s !! channel)).
Proof.
  exists (length <$> active_connections s). split_and!.
  - done.
  - intros channel. rewrite get_connection_count_unfold, lookup_fmap. unfold members.
    by destruct (active_connections s !! channel).
  - intros channel. rewrite lookup_fmap. apply fmap_is_Some.
Qed.

(** X9.  [disconnect] never calls the transport: it does not close or
    write to the connection.  All it leaves in the trace is the log record
    of a removal, with the new count, when the connection was a member. *)
Theorem disconnect_is_silent websocket channel s :
  let s' := (disconnect websocket channel s).2 in
  net s' = net s
  ∧ new_events s s' =
      if decide (websocket ∈ members s channel)
      then [LogDisconnected channel (pred (length (members s channel)))]
      else [].
Proof.
  intros s'. subst s'. rewrite disconnect_unfold.
  assert (Hnil : new_events s s = []) by (unfold new_events; by rewrite drop_all).
  destruct (decide (websocket ∈ members s channel)) as [Hin | Hout].
  - unfold members in Hin |- *.
    destruct (active_connections s !! channel) as [l|]; simpl in Hin |- *;
      [|by apply elem_of_nil in Hin].
    destruct (list_remove websocket l) as [l'|] eqn:Hr;
      [|by apply list_remove_None in Hr].
    rewrite (list_remove_Some_length _ _ _ Hr).
    split; [done | by apply new_events_app].
  - unfold members in Hout |- *.
    destruct (active_connections s !! channel) as [l|]; simpl in Hout |- *; [|done].
    by rewrite (proj2 (list_remove_None websocket l) Hout).
Qed.

Lemma connect_member_inv websocket channel s ws c :
  ws ∈ members (connect websocket channel s).2 c →
  ws ∈ members s c ∨ (ws = websocket ∧ c = channel).
Proof.
  destruct (decide (channel = c)) as [<-|Hne].
  - rewrite connect_members. destruct ((ws_accept websocket (net s)).1); [by left|].
    rewrite elem_of_app, list_elem_of_singleton. intros [? | ->]; [by left | by right].
  - rewrite connect_members_ne by done. by left.
Qed.

Lemma run_exclusive cs seen s :
  fresh_connects seen cs →
  (∀ channel, NoDup (members s channel)) →
  (∀ channel ws, ws ∈ members s channel → ws ∈ seen) →
  (∀ c1 c2 ws, ws ∈ members s c1 → ws ∈ members s c2 → c1 = c2) →
  ∀ c1 c2 ws, ws ∈ members (run cs s) c1 → ws ∈ members (run cs s) c2 → c1 = c2.
Proof.
  revert seen s. induction cs as [|c cs IH]; intros seen s Hf Hnd Hseen Hex; [done|].
  change (c :: cs) with ([c] ++ cs) in Hf |- *.
  apply fresh_connects_app in Hf as [Hc Hcs]. rewrite run_app.
  destruct (exec_fresh c seen s Hc Hnd Hseen) as [Hnd' Hseen'].
  eapply IH; [done | done | done |].
  intros c1 c2 ws H1 H2.
  destruct c as [ws' ch | ws' ch | ch data].
  - simpl in Hc, H1, H2. destruct Hc as [Hnew _].
    apply connect_member_inv in H1 as [H1 | [-> ->]];
      apply connect_member_inv in H2 as [H2 | [? ->]]; subst.
    + by apply (Hex c1 c2 ws).
    + by destruct (Hnew (Hseen c1 _ H1)).
    + by destruct (Hnew (Hseen c2 _ H2)).
    + done.
  - apply (Hex c1 c2 ws).
    + by apply (elem_of_sublist _ _ _ H1), exec_shrinks.
    + by apply (elem_of_sublist _ _ _ H2), exec_shrinks.
  - apply (Hex c1 c2 ws).
    + by apply (elem_of_sublist _ _ _ H1), exec_shrinks.
    + by apply (elem_of_sublist _ _ _ H2), exec_shrinks.
Qed.

(** X10.  One channel per connection.  When every handle passed to
    [connect] is fresh, a connection that is a member of one channel is a
    member of no other channel. *)
Theorem one_channel_per_connection t cs c1 c2 ws :
  fresh_connects [] cs →
  ws ∈ members (run cs (init t)) c1 →
  c1 ≠ c2 →
  ws ∉ members (run cs (init t)) c2.
Proof.
  intros Hf H1 Hne H2. apply Hne.
  apply (run_exclusive cs [] (init t) Hf) with ws; [| | |done|done].
  - intros channel. rewrite members_init. apply NoDup_nil_2.
  - intros channel x. by rewrite members_init.
  - intros k1 k2 x Hx. rewrite members_init in Hx. by apply elem_of_nil in Hx.
Qed.

(** X11.  A broadcast on a registered channel, with a payload the
    serialiser accepts, in which no send goes through evicts every member
    and still keeps the channel: its entry is the empty list, and its count
    is 0. *)
Theorem broadcast_with_every_send_failing channel data s l message :
  active_connections s !! channel = Some l →
  json_dumps data = Return message →
  let s' := (broadcast channel data s).2 in
  delivered (new_events s s') = [] →
  active_connections s' !! channel = Some []
  ∧ get_connection_count channel s' = (Return 0, s').
Proof.
  intros Hl Hd s'. subst s'.
  destruct (broadcast_spec channel data s l message Hl Hd)
    as (evs & cevs & s' & Hb & Htr & Hsent & Hall & Hc & Hch & _).
  rewrite Hb. simpl. rewrite (new_events_app _ _ _ Htr).
  destruct (cleanup_events_silent _ _ Hc) as (_ & Hc2 & _).
  rewrite delivered_dumps, delivered_app, Hc2, app_nil_r. intros Hnone.
  rewrite (no_delivery_all_failed _ Hnone), Hsent in Hch.
  assert (Hempty : foldl (λ l x, discard x l) l l = []).
  { pose proof (discard_all_perm l l (reflexivity l)) as Hp.
    apply Permutation_length in Hp. rewrite length_app in Hp.
    apply nil_length_inv. lia. }
  rewrite Hempty in Hch. split; [done|].
  rewrite get_connection_count_unfold. unfold members. by rewrite Hch.
Qed.

(** X12.  On a channel without duplicates a connection whose send failed in
    a broadcast is not sent to by the next broadcast on the channel, and is
    not a member after it. *)
Theorem evicted_client_is_not_retried channel data data' s ws :
  NoDup (members s channel) →
  let s1 := (broadcast channel data s).2 in
  ws ∈ failed_sends (new_events s s1) →
  let s2 := (broadcast channel data' s1).2 in
  (ws ∉ sent_to (new_events s1 s2)) ∧ (ws ∉ members s2 channel).
Proof.
  intros Hnd s1 Hfail s2. subst s1 s2.
  destruct (broadcast_members channel data s) as (Hafter & _ & _).
  destruct (broadcast_members channel data' (broadcast channel data s).2)
    as (_ & _ & Hsent).
  assert (Hout : ws ∉ members (broadcast channel data s).2 channel).
  { rewrite Hafter, elem_of_discard_all_NoDup by done. by intros [_ ?]. }
  split.
  - destruct Hsent as [-> | ->]; [done | apply not_elem_of_nil].
  - intros Hin. apply Hout. eapply elem_of_sublist; [done|].
    by apply (exec_shrinks (Broadcast channel data')).
Qed.

Lemma discard_cons x z l :
  discard x (z :: l) = if decide (z = x) then l else z :: discard x l.
Proof.
  unfold discard. simpl. case_decide; [done|].
  by destruct (list_remove x l).
Qed.

Lemma discard_comm x y l : discard x (discard y l) = discard y (discard x l).
Proof.
  induction l as [|z l IH]; [done|].
  rewrite (discard_cons y z l), (discard_cons x z l).
  destruct (decide (z = y)) as [Hy|Hy], (decide (z = x)) as [Hx|Hx].
  - by subst.
  - by rewrite discard_cons, decide_True.
  - by rewrite discard_cons, decide_True.
  - rewrite !discard_cons, !decide_False by done. by rewrite IH.
Qed.

(** X13.  Only a [connect] whose handshake succeeds creates a channel: a
    name is in the registry after a call exactly when it was in it before or
    the call is such a [connect] to that name.  [disconnect] and [broadcast]
    never create an entry. *)
Theorem only_connect_creates_channels c channel s :
  is_Some (active_connections (exec c s).2 !! channel) ↔
  is_Some (active_connections s !! channel)
  ∨ ∃ websocket, c = Connect websocket channel ∧ (ws_accept websocket (net s)).1 = None.
Proof.
  split.
  - destruct c as [ws ch | ws ch | ch data]; simpl.
    + destruct (decide (ch = channel)) as [->|Hne].
      * destruct ((ws_accept ws (net s)).1) as [e|] eqn:Hacc; [|right; by exists ws].
        rewrite connect_unfold. destruct (ws_accept ws (net s)) as [r t].
        simpl in Hacc. subst r. simpl. by left.
      * rewrite connect_lookup_ne by done. by left.
    + destruct (decide (ch = channel)) as [->|Hne].
      * rewrite disconnect_lookup, fmap_is_Some. by left.
      * rewrite disconnect_lookup_ne by done. by left.
    + destruct (decide (ch = channel)) as [->|Hne].
      * destruct (active_connections s !! channel) as [l|] eqn:Hl; [by left|].
        rewrite broadcast_unknown by done. simpl. rewrite Hl. by left.
      * rewrite broadcast_lookup_ne by done. by left.
  - intros [Hs | (ws & -> & Hacc)].
    + by apply exec_keeps_channel.
    + simpl. by rewrite connect_lookup.
Qed.

(** X14.  Two [disconnect]s commute on the registry: the explicit
    disconnect of one client and the removal of another, on the same channel
    or on two channels, leave the same registry in either order. *)
Theorem disconnects_commute ws1 ch1 ws2 ch2 s :
  active_connections (disconnect ws1 ch1 (disconnect ws2 ch2 s).2).2 =
  active_connections (disconnect ws2 ch2 (disconnect ws1 ch1 s).2).2.
Proof.
  apply map_eq. intros k.
  destruct (decide (ch1 = k)) as [->|H1], (decide (ch2 = k)) as [->|H2].
  - rewrite !disconnect_lookup.
    destruct (active_connections s !! k) as [l|]; simpl; [|done].
    by rewrite discard_comm.
  - rewrite (disconnect_lookup ws1 k), (disconnect_lookup_ne ws2 ch2 k) by done.
    by rewrite (disconnect_lookup_ne ws2 ch2 k), (disconnect_lookup ws1 k) by done.
  - rewrite (disconnect_lookup_ne ws1 ch1 k), (disconnect_lookup ws2 k) by done.
    by rewrite (disconnect_lookup ws2 k), (disconnect_lookup_ne ws1 ch1 k) by done.
  - rewrite (disconnect_lookup_ne ws1 ch1 k), (disconnect_lookup_ne ws2 ch2 k) by done.
    by rewrite (disconnect_lookup_ne ws2 ch2 k), (disconnect_lookup_ne ws1 ch1 k) by done.
Qed.

End Manager.

(** ** The theorems on concrete runs *)

(** Three clients on "logs", the send to client 2 raising. *)
Lemma broadcast_isolates_failed_send_witness :
  let s := run _ broken_accept broken_send_text _ text_dumps
             [Connect _ 1 "logs"; Connect _ 2 "logs"; Connect _ 3 "logs"]
             (init _ ([], [2])) in
  let s' := (broadcast _ broken_send_text _ text_dumps "logs" (Text "payload") s).2 in
  let evs := new_events _ s s' in
  (broadcast _ broken_send_text _ text_dumps "logs" (Text "payload") s).1 = Return tt
  ∧ sent_to evs = [1; 2; 3]
  ∧ (∃ message,
       text_dumps (Text "payload") = Return message
       ∧ (1, message) ∈ delivered evs
       ∧ (3, message) ∈ delivered evs)
  ∧ (2 ∉ members _ s' "logs")
  ∧ 1 ∈ members _ s' "logs"
  ∧ 3 ∈ members _ s' "logs".
Proof.
  apply (broadcast_isolates_failed_send _ broken_send_text _ text_dumps
           "logs" (Text "payload") _ [1; 2; 3] 1 2 3).
  - vm_compute. reflexivity.
  - reflexivity.
  - by_compute.
  - by_compute.
  - by_compute.
  - by_compute.
Defined.

(** Two clients on "alerts": client 1 disconnects twice, client 7 was never
    connected, and "nochannel" does not exist. *)
Lemma disconnect_never_raises_witness :
  let s := run _ broken_accept broken_send_text _ text_dumps
             [Connect _ 1 "alerts"; Connect _ 2 "alerts"] (init _ ([], [])) in
  let s1 := (disconnect _ 1 "alerts" s).2 in
  (disconnect _ 1 "alerts" s).1 = Return tt
  ∧ (disconnect _ 7 "alerts" s).2 = s
  ∧ (disconnect _ 1 "nochannel" s).2 = s
  ∧ (1 ∉ members _ s1 "alerts")
  ∧ disconnect _ 1 "alerts" s1 = (Return tt, s1).
Proof.
  intros s s1.
  destruct (disconnect_never_raises _ 1 "alerts" s) as (H1 & _ & _ & H4).
  destruct (disconnect_never_raises _ 7 "alerts" s) as (_ & H2 & _ & _).
  destruct (disconnect_never_raises _ 1 "nochannel" s) as (_ & _ & H3 & _).
  split_and!.
  - exact H1.
  - apply H2. by_compute.
  - apply H3. vm_compute. reflexivity.
  - apply H4. by_compute.
  - apply H4. by_compute.
Defined.

(** A disconnect and a broadcast with a failing send on "alerts" leave
    "metrics" alone. *)
Lemma other_channel_untouched_witness :
  let s := run _ broken_accept broken_send_text _ text_dumps
             [Connect _ 1 "alerts"; Connect _ 2 "metrics"] (init _ ([], [1])) in
  active_connections _ (disconnect _ 1 "alerts" s).2 !! "metrics" =
    active_connections _ s !! "metrics"
  ∧ active_connections _ (broadcast _ broken_send_text _ text_dumps "alerts" (Text "payload") s).2
      !! "metrics" = active_connections _ s !! "metrics"
  ∧ (get_connection_count _ "metrics" (disconnect _ 1 "alerts" s).2).1 =
      (get_connection_count _ "metrics" s).1
  ∧ (get_connection_count _ "metrics"
       (broadcast _ broken_send_text _ text_dumps "alerts" (Text "payload") s).2).1 =
      (get_connection_count _ "metrics" s).1.
Proof.
  intros s.
  apply (other_channel_untouched _ broken_send_text _ text_dumps
           "alerts" "metrics" 1 (Text "payload") s).
  discriminate.
Defined.

(** The handshake of client 5 is refused. *)
Lemma connect_handshake_failure_witness :
  let s := init _ ([5], []) in
  (connect _ broken_accept 5 "alerts" s).1 = Raise (RuntimeError "handshake refused")
  ∧ active_connections _ (connect _ broken_accept 5 "alerts" s).2 = active_connections _ s.
Proof.
  intros s.
  apply (connect_handshake_failure _ broken_accept 5 "alerts" s).
  reflexivity.
Defined.

(** C5 as stated fails: a broadcast on a channel that is not in the
    registry does not call the serialiser at all. *)
Lemma broadcast_serialises_once_counterexample :
  let s := init _ ([], []) in
  let s' := (broadcast _ broken_send_text _ text_dumps "newtopic" (Text "payload") s).2 in
  length (serialisations (new_events (list WebSocket * list WebSocket) s s')) ≠ 1.
Proof. vm_compute. discriminate. Qed.

(** Three clients on "alerts", every send going through. *)
Lemma broadcast_serialises_once_witness :
  let s := run _ broken_accept broken_send_text _ text_dumps
             [Connect _ 1 "alerts"; Connect _ 2 "alerts"; Connect _ 3 "alerts"]
             (init _ ([], [])) in
  let s' := (broadcast _ broken_send_text _ text_dumps "alerts" (Text "payload") s).2 in
  let evs := new_events _ s s' in
  serialisations evs = ["payload"]
  ∧ sent_to evs = [1; 2; 3]
  ∧ delivered evs = [(1, "payload"); (2, "payload"); (3, "payload")]
  ∧ active_connections _ s' = active_connections _ s
  ∧ get_connection_count _ "alerts" s' = (Return 3, s').
Proof.
  intros s s' evs.
  destruct (broadcast_serialises_once _ broken_send_text _ text_dumps
              "alerts" (Text "payload") s) as (_ & H & _).
  destruct (H [1; 2; 3] "payload") as (H1 & H2 & _ & H4);
    [vm_compute; reflexivity | reflexivity |].
  destruct H4 as (H5 & H6 & H7); [vm_compute; reflexivity|].
  split_and!; [exact H1 | exact H2 | exact H5 | exact H6 | exact H7].
Defined.

(** C3 as stated fails: on a new manager "metrics" is in the registry, so
    a broadcast on it gets to the serialiser, and with a payload the
    serialiser rejects the broadcast raises. *)
Lemma broadcast_before_connect_counterexample :
  let s := init (list WebSocket * list WebSocket) ([], []) in
  (broadcast _ broken_send_text _ text_dumps "metrics" Cyclic s).1 ≠ Return tt.
Proof. vm_compute. discriminate. Qed.

(** "newtopic" and "metrics" have not been named by any [connect]; client 9
    then joins "newtopic". *)
Lemma broadcast_before_connect_witness :
  let s := run _ broken_accept broken_send_text _ text_dumps
             [Connect _ 1 "alerts"; Broadcast _ "alerts" (Text "payload")]
             (init _ ([], [])) in
  let s1 := (broadcast _ broken_send_text _ text_dumps "newtopic" Cyclic s).2 in
  broadcast _ broken_send_text _ text_dumps "newtopic" Cyclic s = (Return tt, s)
  ∧ members _ s1 "newtopic" = []
  ∧ (connect _ broken_accept 9 "newtopic" s1).1 = Return tt
  ∧ active_connections _ (connect _ broken_accept 9 "newtopic" s1).2 !! "newtopic" = Some [9]
  ∧ (broadcast _ broken_send_text _ text_dumps "metrics" (Text "payload") s).1 = Return tt
  ∧ broadcast _ broken_send_text _ text_dumps "metrics" Cyclic s = (Raise ValueError, s).
Proof.
  intros s s1.
  destruct (broadcast_before_connect _ broken_accept broken_send_text _ text_dumps
              ([], []) [Connect _ 1 "alerts"; Broadcast _ "alerts" (Text "payload")]
              "newtopic" Cyclic 9)
    as (_ & _ & _ & H4 & H5 & _ & _ & H8).
  { repeat (apply Forall_cons; split); [discriminate | discriminate | apply Forall_nil_2]. }
  destruct (broadcast_before_connect _ broken_accept broken_send_text _ text_dumps
              ([], []) [Connect _ 1 "alerts"; Broadcast _ "alerts" (Text "payload")]
              "metrics" (Text "payload") 9)
    as (_ & _ & _ & _ & _ & H6 & _ & _).
  { repeat (apply Forall_cons; split); [discriminate | discriminate | apply Forall_nil_2]. }
  destruct (broadcast_before_connect _ broken_accept broken_send_text _ text_dumps
              ([], []) [Connect _ 1 "alerts"; Broadcast _ "alerts" (Text "payload")]
              "metrics" Cyclic 9)
    as (_ & _ & _ & _ & _ & _ & H7 & _).
  { repeat (apply Forall_cons; split); [discriminate | discriminate | apply Forall_nil_2]. }
  destruct H8 as [H8 H9]; [reflexivity|].
  split_and!.
  - apply H5. by_compute.
  - exact H4.
  - exact H8.
  - exact H9.
  - apply (H6 "payload"). reflexivity.
  - apply (H7 ValueError); [reflexivity | by_compute].
Defined.

(** "newtopic" has not been named by any [connect]. *)
Lemma count_of_unseen_channel_witness :
  let s := run _ broken_accept broken_send_text _ text_dumps
             [Connect _ 1 "alerts"; Broadcast _ "newtopic" (Text "payload")] (init _ ([], [])) in
  get_connection_count _ "newtopic" s = (Return 0, s)
  ∧ active_connections _ (get_connection_count _ "newtopic" s).2 !! "newtopic" = None.
Proof.
  intros s.
  destruct (count_of_unseen_channel _ broken_accept broken_send_text _ text_dumps
              ([], []) [Connect _ 1 "alerts"; Broadcast _ "newtopic" (Text "payload")] "newtopic")
    as [H1 H2].
  { repeat (apply Forall_cons; split); [discriminate | discriminate | apply Forall_nil_2]. }
  split; [exact H1 | apply H2; by_compute].
Defined.

(** C2 as stated fails: with two clients on "alerts", none left on
    "metrics" and one on "logs", the mapping returned is not the mapping of
    those three entries, for it has "network_traffic" too. *)
Lemma all_counts_counterexample :
  let s := run _ broken_accept broken_send_text _ text_dumps
             [Connect _ 1 "alerts"; Connect _ 2 "alerts"; Connect _ 3 "metrics";
              Disconnect _ 3 "metrics"; Connect _ 4 "logs"] (init _ ([], [])) in
  length (members _ s "alerts") = 2
  ∧ length (members _ s "metrics") = 0
  ∧ length (members _ s "logs") = 1
  ∧ (get_all_connection_counts _ s).1 ≠
      Return (<["alerts" := 2]> (<["metrics" := 0]> (<["logs" := 1]> ∅))).
Proof.
  intros s. split_and!; [reflexivity | reflexivity | reflexivity |].
  intros H.
  apply (f_equal (λ r : result (gmap string nat),
                    match r with
                    | Return counts => counts !! "network_traffic"
                    | Raise _ => None
                    end)) in H.
  vm_compute in H. discriminate.
Qed.

(** The same run, with its four entries. *)
Lemma all_counts_of_scenario_witness :
  let s := run _ broken_accept broken_send_text _ text_dumps
             [Connect _ 1 "alerts"; Connect _ 2 "alerts"; Connect _ 3 "metrics";
              Disconnect _ 3 "metrics"; Connect _ 4 "logs"] (init _ ([], [])) in
  get_all_connection_counts _ s =
  (Return (<["alerts" := 2]> (<["metrics" := 0]> (<["network_traffic" := 0]>
             (<["logs" := 1]> ∅)))), s).
Proof.
  apply (all_counts_of_scenario _ broken_accept broken_send_text _ text_dumps ([], [])
           [Connect _ 1 "alerts"; Connect _ 2 "alerts"; Connect _ 3 "metrics";
            Disconnect _ 3 "metrics"; Connect _ 4 "logs"]).
  - repeat (apply Forall_cons; split); try apply Forall_nil_2;
      intros ws ch Heq; try discriminate; injection Heq as _ <-; by_compute.
  - reflexivity.
  - reflexivity.
  - reflexivity.
Defined.

(** Fresh clients 1, 2 and 3; the send to client 2 raises during the
    broadcast and client 1 disconnects. *)
Lemma fresh_connects_keep_channels_clean_witness :
  let cs := [Connect _ 1 "alerts"; Connect _ 2 "alerts"; Broadcast _ "alerts" (Text "payload");
             Disconnect _ 1 "alerts"; Connect _ 3 "alerts"] in
  let s0 := init (list WebSocket * list WebSocket) ([], [2]) in
  let s := run _ broken_accept broken_send_text _ text_dumps cs s0 in
  (∀ channel, NoDup (members _ s channel))
  ∧ (∀ channel ws, ws ∈ members _ s channel →
       ¬ removed_from _ broken_accept broken_send_text _ text_dumps cs s0 channel ws)
  ∧ removed_from _ broken_accept broken_send_text _ text_dumps cs s0 "alerts" 1
  ∧ removed_from _ broken_accept broken_send_text _ text_dumps cs s0 "alerts" 2.
Proof.
  intros cs s0 s.
  destruct (fresh_connects_keep_channels_clean _ broken_accept broken_send_text _ text_dumps
              ([], [2]) cs) as (H1 & H2 & H3 & H4).
  { simpl. split_and!; try exact I; by_compute. }
  split_and!.
  - exact H1.
  - exact H2.
  - apply (H3 [Connect _ 1 "alerts"; Connect _ 2 "alerts"; Broadcast _ "alerts" (Text "payload")]
              1 "alerts" [Connect _ 3 "alerts"]); [reflexivity | by_compute].
  - apply (H4 [Connect _ 1 "alerts"; Connect _ 2 "alerts"] "alerts" (Text "payload")
              [Disconnect _ 1 "alerts"; Connect _ 3 "alerts"] 2); [reflexivity | by_compute].
Defined.

(** Client 1 is registered twice on "alerts": one [disconnect] takes the
    first registration out and leaves the second. *)
Lemma disconnect_removes_one_witness :
  let s := run _ broken_accept broken_send_text _ text_dumps
             [Connect _ 1 "alerts"; Connect _ 2 "alerts"; Connect _ 1 "alerts"]
             (init _ ([], [])) in
  let s' := (disconnect _ 1 "alerts" s).2 in
  members _ s "alerts" ≡ₚ 1 :: members _ s' "alerts"
  ∧ get_connection_count _ "alerts" s' = (Return 2, s')
  ∧ members _ s' "alerts" = [2; 1].
Proof.
  intros s s'.
  destruct (disconnect_removes_one _ 1 "alerts" s) as (H1 & H2 & H3); [by_compute|].
  split_and!; [exact H1 | exact H2 |].
  apply (H3 [] [2; 1]); [reflexivity | apply not_elem_of_nil].
Defined.

(** Client 7 joins a channel that did not exist. *)
Lemma connect_appends_witness :
  let s := init (list WebSocket * list WebSocket) ([], []) in
  let s' := (connect _ broken_accept 7 "newtopic" s).2 in
  (connect _ broken_accept 7 "newtopic" s).1 = Return tt
  ∧ members _ s' "newtopic" = [7]
  ∧ get_connection_count _ "newtopic" s' = (Return 1, s')
  ∧ new_events _ s s' = [Accept 7 true; LogConnected "newtopic" 1]
  ∧ active_connections _ s' !! "alerts" = active_connections _ s !! "alerts".
Proof.
  intros s s'.
  destruct (connect_appends _ broken_accept 7 "newtopic" s) as (H1 & H2 & H3 & H4 & H5);
    [reflexivity|].
  split_and!; [exact H1 | exact H2 | exact H3 | exact H4 | apply H5; discriminate].
Defined.

(** Client 2 joins and leaves "alerts", where client 1 is; client 3 joins
    and leaves "newtopic", which did not exist. *)
Lemma connect_then_disconnect_witness :
  let s := run _ broken_accept broken_send_text _ text_dumps
             [Connect _ 1 "alerts"] (init _ ([], [])) in
  let s2 := (disconnect _ 2 "alerts" (connect _ broken_accept 2 "alerts" s).2).2 in
  let s3 := (disconnect _ 3 "newtopic" (connect _ broken_accept 3 "newtopic" s).2).2 in
  active_connections _ s2 = active_connections _ s
  ∧ members _ s3 "alerts" = members _ s "alerts"
  ∧ active_connections _ s3 !! "newtopic" = Some [].
Proof.
  intros s s2 s3.
  destruct (connect_then_disconnect _ broken_accept 2 "alerts" s) as (_ & H2 & _);
    [reflexivity | by_compute |].
  destruct (connect_then_disconnect _ broken_accept 3 "newtopic" s) as (H3 & _ & H4);
    [reflexivity | by_compute |].
  split_and!.
  - apply H2. apply (bool_decide_unpack _). vm_compute. exact I.
  - apply H3.
  - apply H4. vm_compute. reflexivity.
Defined.

(** "network_traffic" is still reported after calls on other channels. *)
Lemma channels_are_never_deleted_witness :
  let cs := [Connect _ 1 "alerts"; Disconnect _ 1 "alerts"; Broadcast _ "logs" (Text "payload")] in
  let s := run _ broken_accept broken_send_text _ text_dumps cs (init _ ([], [])) in
  is_Some (active_connections _ s !! "metrics")
  ∧ ∃ counts n,
      (get_all_connection_counts _ s).1 = Return counts
      ∧ counts !! "network_traffic" = Some n.
Proof.
  intros cs s.
  destruct (channels_are_never_deleted _ broken_accept broken_send_text _ text_dumps cs)
    as [H1 H2].
  split.
  - apply (H1 (init _ ([], [])) "metrics"). apply (bool_decide_unpack _). vm_compute. exact I.
  - apply (H2 ([], []) "network_traffic"). by_compute.
Defined.

(** Client 1 is on "alerts" and so not on "logs". *)
Lemma one_channel_per_connection_witness :
  let s := run _ broken_accept broken_send_text _ text_dumps
             [Connect _ 1 "alerts"; Connect _ 2 "logs"] (init _ ([], [])) in
  1 ∉ members _ s "logs".
Proof.
  apply (one_channel_per_connection _ broken_accept broken_send_text _ text_dumps
           ([], []) [Connect _ 1 "alerts"; Connect _ 2 "logs"] "alerts" "logs" 1).
  - simpl. split_and!; try exact I; by_compute.
  - by_compute.
  - discriminate.
Defined.

(** Both clients of "logs" are broken. *)
Lemma broadcast_with_every_send_failing_witness :
  let s := run _ broken_accept broken_send_text _ text_dumps
             [Connect _ 1 "logs"; Connect _ 2 "logs"] (init _ ([], [1; 2])) in
  let s' := (broadcast _ broken_send_text _ text_dumps "logs" (Text "payload") s).2 in
  active_connections _ s' !! "logs" = Some []
  ∧ get_connection_count _ "logs" s' = (Return 0, s').
Proof.
  apply (broadcast_with_every_send_failing _ broken_send_text _ text_dumps
           "logs" (Text "payload") _ [1; 2] "payload").
  - vm_compute. reflexivity.
  - reflexivity.
  - vm_compute. reflexivity.
Defined.

(** Client 2 is broken: the second broadcast does not send to it. *)
Lemma evicted_client_is_not_retried_witness :
  let s := run _ broken_accept broken_send_text _ text_dumps
             [Connect _ 1 "logs"; Connect _ 2 "logs"] (init _ ([], [2])) in
  let s1 := (broadcast _ broken_send_text _ text_dumps "logs" (Text "first") s).2 in
  let s2 := (broadcast _ broken_send_text _ text_dumps "logs" (Text "second") s1).2 in
  (2 ∉ sent_to (new_events _ s1 s2)) ∧ (2 ∉ members _ s2 "logs").
Proof.
  apply (evicted_client_is_not_retried _ broken_accept broken_send_text _ text_dumps
           "logs" (Text "first") (Text "second") _ 2).
  - by_compute.
  - by_compute.
Defined.

(** Client 1 is broken: with a text the broadcast returns although the send
    raises; with a payload the serialiser rejects the broadcast raises its
    exception and the state is as it was. *)
Lemma broadcast_raises_only_serialiser_errors_witness :
  let s := run _ broken_accept broken_send_text _ text_dumps
             [Connect _ 1 "alerts"] (init _ ([], [1])) in
  broadcast _ broken_send_text _ text_dumps "newtopic" Cyclic s = (Return tt, s)
  ∧ (broadcast _ broken_send_text _ text_dumps "alerts" (Text "payload") s).1 = Return tt
  ∧ text_dumps Cyclic = Raise ValueError
  ∧ is_Some (active_connections _ s !! "alerts")
  ∧ (broadcast _ broken_send_text _ text_dumps "alerts" Cyclic s).2 = s.
Proof.
  intros s.
  destruct (broadcast_raises_only_serialiser_errors _ broken_send_text _ text_dumps
              "newtopic" Cyclic s) as (H1 & _ & _).
  destruct (broadcast_raises_only_serialiser_errors _ broken_send_text _ text_dumps
              "alerts" (Text "payload") s) as (_ & H2 & _).
  destruct (broadcast_raises_only_serialiser_errors _ broken_send_text _ text_dumps
              "alerts" Cyclic s) as (_ & _ & H3).
  destruct (H3 ValueError) as (H4 & H5 & H6); [vm_compute; reflexivity|].
  split_and!.
  - apply H1. vm_compute. reflexivity.
  - apply (H2 "payload"). reflexivity.
  - exact H4.
  - exact H5.
  - exact H6.
Defined.
